(** * The 987 tile engine: board, moves, tile spawning and move search

    A shallow embedding of the game engine of [nineeightseven.py]
    (the functions [pad_values] ... [with_random_tile] and the class
    [TwentyFourtyEightBoard]) together with the properties its
    specification states about it.

    Python integers are [Z]; tuples of cells are lists; the global random
    generator is an explicit tape of raw draws threaded through every
    function that draws from it; exceptions are the left summand of the
    result. *)

From Stdlib Require Import String ZArith List Bool Lia QArith.
Import ListNotations.
Open Scope Z_scope.

(** ** Data model *)

(** [CELL = tuple[int, int]]: rank and identity key. *)
Definition cell : Type := (Z * Z)%type.
(** [GROUP = tuple[CELL, ...]] *)
Definition group : Type := list cell.
(** [BOARD = tuple[GROUP, ...]] *)
Definition board : Type := list group.

Inductive Direction : Type := UP | DOWN | LEFT | RIGHT.

(** Iterating over the enum class yields its members in definition order. *)
Definition directions : list Direction := [UP; DOWN; LEFT; RIGHT].

Definition BOARD_SIZE : nat := 4.

(** ** Exceptions and the random generator *)

Inductive error : Type := ValueError | IndexError | ZeroDivisionError.

(** The state of the global generator: the raw draws still to come. *)
Definition rng : Type := nat -> Z.

(** A computation that may draw from the generator and may raise. *)
Definition M (A : Type) : Type := rng -> error + (A * rng).

Definition ret {A : Type} (a : A) : M A := fun g => inr (a, g).

Definition raise {A : Type} (e : error) : M A := fun _ => inl e.

Definition bind {A B : Type} (m : M A) (f : A -> M B) : M B :=
  fun g => match m g with
           | inl e => inl e
           | inr (a, g') => f a g'
           end.

Notation "x <- m ;; k" := (bind m (fun x => k))
  (at level 61, m at next level, right associativity).
Notation "' pat <- m ;; k" := (bind m (fun x => match x with pat => k end))
  (at level 61, pat pattern, m at next level, right associativity).

(** One raw draw. *)
Definition draw : M Z := fun g => inr (g 0%nat, fun n => g (S n)).

(** [random.randint(lo, hi)]: an integer of the closed range. *)
Definition randint (lo hi : Z) : M Z :=
  r <- draw ;; ret (lo + r mod (hi - lo + 1)).

(** [random.choice(seq)] on a sequence: the element at a drawn index. *)
Definition choice {A : Type} (l : list A) : M A :=
  r <- draw ;;
  match nth_error l (Z.to_nat (r mod Z.of_nat (length l))) with
  | Some x => ret x
  | None => raise IndexError
  end.

(** [random.random()]: a multiple of [2^-53] in the half-open unit
    interval. *)
Definition random : M Q :=
  r <- draw ;; ret (Qmake (r mod 2 ^ 53) (2 ^ 53)).

(** [range(n)] *)
Definition range (n : nat) : list nat := seq 0 n.

(** [l[i]] for an index that is not negative. *)
Definition index {A : Type} (l : list A) (i : nat) : M A :=
  match nth_error l i with
  | Some x => ret x
  | None => raise IndexError
  end.

(** A [for] loop over [xs] whose body updates the loop state. *)
Fixpoint for_each {A S : Type} (xs : list A) (body : A -> S -> M S) (s : S)
  : M S :=
  match xs with
  | [] => ret s
  | x :: xs' => s' <- body x s ;; for_each xs' body s'
  end.

(** A tuple (or list) built by a generator expression over [xs]. *)
Fixpoint generate {A B : Type} (xs : list A) (f : A -> M B) : M (list B) :=
  match xs with
  | [] => ret []
  | x :: xs' => y <- f x ;; ys <- generate xs' f ;; ret (y :: ys)
  end.

(** [[x for x in xs if test(x)]] *)
Fixpoint generate_if {A : Type} (xs : list A) (test : A -> M bool)
  : M (list A) :=
  match xs with
  | [] => ret []
  | x :: xs' =>
      keep <- test x ;;
      ys <- generate_if xs' test ;;
      ret (if keep then x :: ys else ys)
  end.

(** [sum(f(x) for x in xs)] *)
Fixpoint sum_of {A : Type} (xs : list A) (f : A -> M Z) (acc : Z) : M Z :=
  match xs with
  | [] => ret acc
  | x :: xs' => y <- f x ;; sum_of xs' f (acc + y)
  end.

(** [a // b] *)
Definition floordiv (a b : Z) : M Z :=
  if b =? 0 then raise ZeroDivisionError else ret (a / b).

(** ** Lines *)

Definition get_random_key : M Z := randint 0 1000000.

Definition pad_values (v : list cell) : M group :=
  if (BOARD_SIZE <? length v)%nat then raise ValueError
  else
    pad <- generate (range (BOARD_SIZE - length v))
                    (fun _ => k <- get_random_key ;; ret (0, k)) ;;
    ret (v ++ pad).

(** The state of the loop of [combine_values]. *)
Record combine_state : Type := mk_combine_state {
  new_values : list cell;
  values_counter : nat;
  score_acc : Z
}.

(** [values[i]], for an index the loop has checked to be in range. *)
Definition at_index (values : list cell) (i : nat) : cell :=
  nth i values (0, 0).

(** One iteration of the loop of [combine_values]. *)
Definition combine_step (values : list cell) (i : nat) (st : combine_state)
  : combine_state :=
  if (values_counter st =? i + 1)%nat then st
  else
    let counter := S (values_counter st) in
    if (i + 1 <? length values)%nat then
      let cur := at_index values i in
      let nxt := at_index values (i + 1) in
      if (fst cur =? fst nxt) && (fst nxt =? 1) then
        mk_combine_state (new_values st ++ [(2, snd nxt)])
                         (S counter) (score_acc st + 2)
      else if Z.abs (fst cur - fst nxt) =? 1 then
        mk_combine_state
          (new_values st ++ [(Z.max (fst cur) (fst nxt) + 1, snd nxt)])
          (S counter) (score_acc st + (fst cur + fst nxt))
      else
        mk_combine_state (new_values st ++ [cur]) counter (score_acc st)
    else
      mk_combine_state (new_values st ++ [at_index values i])
                       counter (score_acc st).

Definition combine_values (g : group) : list cell * Z :=
  let values := filter (fun c => negb (fst c =? 0)) g in
  let st := fold_left (fun st i => combine_step values i st)
                      (range (length values))
                      (mk_combine_state [] 0 0) in
  (new_values st, score_acc st).

Definition reverse (g : group) : group := rev g.

Definition ith_column (b : board) (i : nat) : M group :=
  generate (range BOARD_SIZE) (fun j => row <- index b j ;; index row i).

Definition ith_row (b : board) (i : nat) : M group := index b i.

Definition transpose (b : board) : M board :=
  generate (range BOARD_SIZE) (fun i => ith_column b i).

Definition insert_value_row (row : group) (i : nat) (value : Z) : M group :=
  random_value <- get_random_key ;;
  generate (range BOARD_SIZE)
           (fun j => if (i =? j)%nat then ret (value, random_value)
                     else index row j).

Definition insert_value (b : board) (i j : nat) (value : Z) : M board :=
  generate (range BOARD_SIZE)
           (fun k => if (i =? k)%nat
                     then (row <- index b k ;; insert_value_row row j value)
                     else index b k).

(** ** The board class *)

Definition _move_up (b : board) : M (board * Z) :=
  '(new_board, total_score) <-
    for_each (range BOARD_SIZE)
      (fun i '(new_board, total_score) =>
         col <- ith_column b i ;;
         let '(values, score) := combine_values col in
         padded <- pad_values values ;;
         ret (new_board ++ [padded], total_score + score))
      ([], 0) ;;
  t <- transpose new_board ;;
  ret (t, total_score).

Definition _move_down (b : board) : M (board * Z) :=
  '(new_board, total_score) <-
    for_each (range BOARD_SIZE)
      (fun i '(new_board, total_score) =>
         col <- ith_column b i ;;
         let '(values, score) := combine_values (reverse col) in
         padded <- pad_values values ;;
         ret (new_board ++ [reverse padded], total_score + score))
      ([], 0) ;;
  t <- transpose new_board ;;
  ret (t, total_score).

Definition _move_left (b : board) : M (board * Z) :=
  for_each (range BOARD_SIZE)
    (fun i '(new_board, total_score) =>
       row <- ith_row b i ;;
       let '(values, score) := combine_values row in
       padded <- pad_values values ;;
       ret (new_board ++ [padded], total_score + score))
    ([], 0).

Definition _move_right (b : board) : M (board * Z) :=
  for_each (range BOARD_SIZE)
    (fun i '(new_board, total_score) =>
       row <- ith_row b i ;;
       let '(values, score) := combine_values (reverse row) in
       padded <- pad_values values ;;
       ret (new_board ++ [reverse padded], total_score + score))
    ([], 0).

Definition _just_values (b : board) : list Z :=
  flat_map (fun row => map fst row) b.

(** The [match] of [move]: the board and score of the direction's
    routine.  The routines always return a board, so that the [assert] that
    follows the [match] never fails. *)
Definition move_raw (b : board) (d : Direction) : M (board * Z) :=
  match d with
  | UP => _move_up b
  | DOWN => _move_down b
  | LEFT => _move_left b
  | RIGHT => _move_right b
  end.

Definition move (b : board) (d : Direction) : M (option board * Z) :=
  '(new_board, score) <- move_raw b d ;;
  if list_eq_dec Z.eq_dec (_just_values b) (_just_values new_board)
  then ret (None, 0)
  else ret (Some new_board, score).

(** [x is None] for the pair [x] that [move] returns: a tuple object is
    never the [None] object, whatever its components are. *)
Definition tuple_is_None {A B : Type} (x : A * B) : bool := false.

(** [all(self.move(direction) is None for direction in Direction)]; [all]
    stops at the first false element. *)
Fixpoint all_moves_None (b : board) (ds : list Direction) : M bool :=
  match ds with
  | [] => ret true
  | d :: ds' =>
      r <- move b d ;;
      if tuple_is_None r then all_moves_None b ds' else ret false
  end.

Definition is_game_over (b : board) : M bool := all_moves_None b directions.

(** The list [empty_tiles] of [with_random_tile]. *)
Definition empty_tiles (b : board) : M (list (nat * nat)) :=
  generate_if (list_prod (range BOARD_SIZE) (range BOARD_SIZE))
    (fun '(i, j) => row <- index b i ;; c <- index row j ;;
                    ret (fst c =? 0)).

(** [random.random() < 0.9]: the draw is [k / 2^53], and the double
    nearest to 0.9 is [8106479329266893 / 2^53], so that the test holds for
    the same [k] as the comparison with the rational 9/10. *)
Definition with_random_tile (b : board) : M board :=
  empty <- empty_tiles b ;;
  match empty with
  | [] => ret b
  | _ :: _ =>
      '(i, j) <- choice empty ;;
      u <- random ;;
      let value := if Qlt_le_dec u (9 # 10) then 1 else 2 in
      insert_value b i j value
  end.

Fixpoint best_move (depth breadth : nat) (b : board) : M (Direction * Z) :=
  over <- is_game_over b ;;
  if over then ret (UP, -123456789)
  else
    '(best_score, best_direction) <-
      for_each directions
        (fun direction '(best_score, best_direction) =>
           '(new_board, score) <- move b direction ;;
           match new_board with
           | Some nb =>
               score <-
                 match depth with
                 | S depth' =>
                     total <- sum_of (range breadth)
                                (fun _ => t <- with_random_tile nb ;;
                                          r <- best_move depth' breadth t ;;
                                          ret (snd r)) 0 ;;
                     average_additional_score <-
                       floordiv total (Z.of_nat breadth) ;;
                     ret (score + average_additional_score)
                 | O => ret score
                 end ;;
               if score >? best_score then ret (score, direction)
               else ret (best_score, best_direction)
           | None => ret (best_score, best_direction)
           end)
        (-1, UP) ;;
    ret (best_direction, best_score).

(** Running a computation and keeping its value only. *)
Definition value_of {A : Type} (r : error + (A * rng)) : option A :=
  match r with
  | inl _ => None
  | inr (a, _) => Some a
  end.

(** The tape whose draws are all zero. *)
Definition zero_tape : rng := fun _ => 0.

(** ** Specification-side definitions *)

(** A board of the data model: [BOARD_SIZE] rows of [BOARD_SIZE] cells. *)
Definition wf_board (b : board) : Prop :=
  length b = BOARD_SIZE /\ Forall (fun row => length row = BOARD_SIZE) b.

(** The rank invariant of the data model: no rank is negative. *)
Definition ranks_nonneg (b : board) : Prop :=
  Forall (Forall (fun c : cell => 0 <= fst c)) b.

(** The rank layout of a board. *)
Definition ranks (b : board) : list (list Z) := map (map fst) b.

(** The cell at a position of the board. *)
Definition cell_at (b : board) (i j : nat) : option cell :=
  match nth_error b i with
  | Some row => nth_error row j
  | None => None
  end.

(** How many cells of the board are occupied. *)
Definition occupied (b : board) : nat :=
  length (filter (fun c : cell => negb (fst c =? 0)) (concat b)).

(** The combine routine in the words of the specification: walk the
    occupied cells from the left, one merge decision at a time. *)
Fixpoint merge_walk (vs : list cell) : list cell * Z :=
  match vs with
  | [] => ([], 0)
  | cur :: rest =>
      match rest with
      | [] => ([cur], 0)
      | nxt :: rest' =>
          if (fst cur =? 1) && (fst nxt =? 1) then
            let (out, s) := merge_walk rest' in
            ((2, snd nxt) :: out, 2 + s)
          else if Z.abs (fst cur - fst nxt) =? 1 then
            let (out, s) := merge_walk rest' in
            ((Z.max (fst cur) (fst nxt) + 1, snd nxt) :: out,
             (fst cur + fst nxt) + s)
          else
            let (out, s) := merge_walk rest in
            (cur :: out, s)
      end
  end.

Definition combine_spec (line : group) : list cell * Z :=
  merge_walk (filter (fun c => negb (fst c =? 0)) line).

(** The same walk on ranks alone. *)
Fixpoint rank_walk (rs : list Z) : list Z * Z :=
  match rs with
  | [] => ([], 0)
  | cur :: rest =>
      match rest with
      | [] => ([cur], 0)
      | nxt :: rest' =>
          if (cur =? 1) && (nxt =? 1) then
            let (out, s) := rank_walk rest' in (2 :: out, 2 + s)
          else if Z.abs (cur - nxt) =? 1 then
            let (out, s) := rank_walk rest' in
            (Z.max cur nxt + 1 :: out, (cur + nxt) + s)
          else
            let (out, s) := rank_walk rest in (cur :: out, s)
      end
  end.

(** Combining and padding a line, on ranks. *)
Definition rank_line (rs : list Z) : list Z * Z :=
  let (out, s) := rank_walk (filter (fun r => negb (r =? 0)) rs) in
  (out ++ repeat 0 (BOARD_SIZE - length out), s).

Definition rank_transpose (R : list (list Z)) : list (list Z) :=
  map (fun i => map (fun row => nth i row 0) R) (range BOARD_SIZE).

Definition rank_rows (d : Direction) (R : list (list Z)) : list (list Z) :=
  match d with
  | LEFT | UP => map (fun r => fst (rank_line r)) R
  | RIGHT | DOWN => map (fun r => rev (fst (rank_line (rev r)))) R
  end.

(** The rank layout and the score that a direction's routine produces. *)
Definition rank_move (d : Direction) (R : list (list Z)) : list (list Z) :=
  match d with
  | LEFT | RIGHT => rank_rows d R
  | UP | DOWN => rank_transpose (rank_rows d (rank_transpose R))
  end.

Definition rank_score (d : Direction) (R : list (list Z)) : Z :=
  let lines := match d with
               | LEFT | RIGHT => R
               | UP | DOWN => rank_transpose R
               end in
  fold_left (fun acc r =>
               acc + snd (rank_line (match d with
                                     | LEFT | UP => r
                                     | RIGHT | DOWN => rev r
                                     end)))
            lines 0.

(** Whether a direction leaves a rank layout as it is. *)
Definition unchanged (d : Direction) (R : list (list Z)) : bool :=
  if list_eq_dec (list_eq_dec Z.eq_dec) R (rank_move d R) then true
  else false.

(** [bt] is the transpose of [b], whatever the state of the generator. *)
Definition is_transpose (b bt : board) : Prop :=
  forall g, transpose b g = inr (bt, g).

(** The result of [move] with every row of the new board mapped by [f]. *)
Definition map_outcome (f : board -> board) (r : option board * Z)
  : option board * Z :=
  (option_map f (fst r), snd r).

(** The result of [move] up to identity keys. *)
Definition outcome_ranks (r : option board * Z)
  : option (list (list Z)) * Z :=
  (option_map ranks (fst r), snd r).

(** Two results of [move] where the second, with its board transposed
    back, is the first up to identity keys. *)
Definition transposed_outcome (r r' : option board * Z) : Prop :=
  snd r = snd r' /\
  match fst r, fst r' with
  | None, None => True
  | Some x, Some y => exists yt, is_transpose y yt /\ ranks x = ranks yt
  | _, _ => False
  end.

(** Whether a direction changes the rank layout. *)
Definition legal (b : board) (d : Direction) : bool :=
  match value_of (move b d zero_tape) with
  | Some (Some _, _) => true
  | _ => false
  end.

(** The value added to a move's score delta by the look-ahead: when
    [depth > 0], the average over [breadth] spawned boards of the score
    that the search finds from them. *)
Definition estimate (depth breadth : nat) (nb : board) (score : Z) : M Z :=
  match depth with
  | S depth' =>
      total <- sum_of (range breadth)
                 (fun _ => t <- with_random_tile nb ;;
                           r <- best_move depth' breadth t ;;
                           ret (snd r)) 0 ;;
      average_additional_score <- floordiv total (Z.of_nat breadth) ;;
      ret (score + average_additional_score)
  | O => ret score
  end.

(** The total value of one direction in [best_move]: nothing when the
    direction is skipped. *)
Definition total_value (depth breadth : nat) (b : board) (d : Direction)
  : M (option Z) :=
  '(new_board, score) <- move b d ;;
  match new_board with
  | None => ret None
  | Some nb => t <- estimate depth breadth nb score ;; ret (Some t)
  end.

(** The body of the loop of [best_move]. *)
Definition search_body (depth breadth : nat) (b : board)
    (direction : Direction) (best : Z * Direction) : M (Z * Direction) :=
  let '(best_score, best_direction) := best in
  '(new_board, score) <- move b direction ;;
  match new_board with
  | Some nb =>
      score <- estimate depth breadth nb score ;;
      if score >? best_score then ret (score, direction)
      else ret (best_score, best_direction)
  | None => ret (best_score, best_direction)
  end.

(** The directions that are not skipped, in the order they are considered,
    each with its total value. *)
Fixpoint candidates (depth breadth : nat) (b : board) (ds : list Direction)
  : M (list (Direction * Z)) :=
  match ds with
  | [] => ret []
  | d :: ds' =>
      v <- total_value depth breadth b d ;;
      rest <- candidates depth breadth b ds' ;;
      ret (match v with
           | Some t => (d, t) :: rest
           | None => rest
           end)
  end.

(** Keeping the better of the best so far and a candidate. *)
Definition keep_best (best : Z * Direction) (c : Direction * Z)
  : Z * Direction :=
  if snd c >? fst best then (snd c, fst c) else best.

(** The positions of the empty cells, row by row. *)
Definition empty_positions (b : board) : list (nat * nat) :=
  filter (fun '(i, j) => match cell_at b i j with
                         | Some c => fst c =? 0
                         | None => false
                         end)
         (list_prod (range BOARD_SIZE) (range BOARD_SIZE)).

(** The game-over sentinel of [best_move]. *)
Definition sentinel : Z := -123456789.

(** ** Boards used as examples *)

(** A board with the two merges of the specification in its first rows. *)
Definition sample_board : board :=
  [[(1, 11); (1, 12); (0, 13); (0, 14)];
   [(3, 21); (4, 22); (0, 23); (0, 24)];
   [(3, 31); (6, 32); (0, 33); (0, 34)];
   [(0, 41); (0, 42); (0, 43); (2, 44)]].

(** A full board on which no two neighbours merge. *)
Definition dead_board : board :=
  [[(5, 11); (5, 12); (5, 13); (5, 14)];
   [(5, 21); (5, 22); (5, 23); (5, 24)];
   [(5, 31); (5, 32); (5, 33); (5, 34)];
   [(5, 41); (5, 42); (5, 43); (5, 44)]].

(** The same board with its last cell empty: sliding down or right is
    possible, no merge is, and any tile spawned after the slide fills the
    board without making a merge possible. *)
Definition cornered_board : board :=
  [[(5, 11); (5, 12); (5, 13); (5, 14)];
   [(5, 21); (5, 22); (5, 23); (5, 24)];
   [(5, 31); (5, 32); (5, 33); (5, 34)];
   [(5, 41); (5, 42); (5, 43); (0, 44)]].

(** The board a game starts from, before its first tile, with the given
    identity keys. *)
Definition blank_board (key : nat -> nat -> Z) : board :=
  map (fun i => map (fun j => (0, key i j)) (range BOARD_SIZE))
      (range BOARD_SIZE).

(** ** The value table and the game state *)

Definition generate_fibonacci (n : Z) : list Z :=
  let '(_, _, result) :=
    fold_left (fun '(a, b, result) (_ : nat) =>
                 (b, a + b, result ++ [a + b]))
              (range (Z.to_nat (n - 2))) (1, 1, [1; 1]) in
  result.

Definition fibonacci : list Z := generate_fibonacci 30.

(** [Direction.value] *)
Definition Direction_value (d : Direction) : string :=
  match d with
  | UP => "ArrowUp"
  | DOWN => "ArrowDown"
  | LEFT => "ArrowLeft"
  | RIGHT => "ArrowRight"
  end.

(** The attributes of [State]. *)
Record State : Type := mk_State {
  _board : board;
  score : Z
}.

(** What an event handler raises: [KeyError], or what the engine raises. *)
Inductive event_error : Type :=
| KeyError
| Raised (e : error).

(** An event handler's computation. *)
Definition E (A : Type) : Type := rng -> event_error + (A * rng).

Definition engine {A : Type} (m : M A) : E A :=
  fun g => match m g with
           | inl e => inl (Raised e)
           | inr r => inr r
           end.

(** The dictionary literal of [on_key]. *)
Definition key_directions : list (string * Direction) :=
  [("ArrowUp"%string, UP); ("ArrowDown"%string, DOWN);
   ("ArrowLeft"%string, LEFT); ("ArrowRight"%string, RIGHT)].

(** [d[key]] on a dictionary given by its items. *)
Fixpoint dict_get (d : list (string * Direction)) (key : string)
  : option Direction :=
  match d with
  | [] => None
  | (k, v) :: d' => if String.eqb k key then Some v else dict_get d' key
  end.

(** The default value of the [board] field, evaluated when the class is
    defined. *)
Definition default_board : M board :=
  generate (range BOARD_SIZE)
    (fun _ => generate (range BOARD_SIZE)
                (fun _ => k <- get_random_key ;; ret (0, k))).

Definition on_load (s : State) : M State :=
  if forallb (fun c : cell => fst c =? 0) (concat (_board s)) then
    t <- with_random_tile (_board s) ;;
    ret (mk_State t 0)
  else ret s.

(** [on_reset], where [fresh] is the board that [TwentyFourtyEightBoard()]
    makes: the default value of the field. *)
Definition on_reset (fresh : board) (s : State) : M State :=
  t <- with_random_tile fresh ;;
  ret (mk_State t 0).

Definition on_key (s : State) (key : string) : E State :=
  match dict_get key_directions key with
  | None => fun _ => inl KeyError
  | Some direction =>
      engine ('(new_board, delta) <- move (_board s) direction ;;
              match new_board with
              | Some nb =>
                  t <- with_random_tile nb ;;
                  ret (mk_State t (score s + delta))
              | None => ret s
              end)
  end.

(** The body of [computer_play] that runs with the state held: one move
    chosen by [best_move] and played through [on_key]. *)
Definition computer_play (s : State) : E State :=
  fun g => match best_move 3 4 (_board s) g with
           | inl e => inl (Raised e)
           | inr (r, g') => on_key s (Direction_value (fst r)) g'
           end.

(** The Fibonacci numbers that the table holds, by index. *)
Fixpoint fib (k : nat) : Z :=
  match k with
  | O => 1
  | S k' => match k' with
            | O => 1
            | S k'' => fib k'' + fib k'
            end
  end.

(** The number that the table gives for a rank inside it. *)
Definition magnitude (r : Z) : Z := nth (Z.to_nat r) fibonacci 0.

(** The number that a cell of rank [r] adds to a total: nothing when the
    cell is empty. *)
Definition cell_magnitude (r : Z) : Z :=
  if r =? 0 then 0 else magnitude r.

(** The total of the numbers of a list of ranks, of a line and of a
    board. *)
Definition rank_magnitude (rs : list Z) : Z :=
  fold_right (fun r acc => cell_magnitude r + acc) 0 rs.

Definition line_magnitude (cells : list cell) : Z :=
  rank_magnitude (map fst cells).

Definition board_magnitude (b : board) : Z := line_magnitude (concat b).

(** Every rank of the board is between 0 and [m]. *)
Definition ranks_within (m : Z) (b : board) : Prop :=
  Forall (Forall (fun c : cell => 0 <= fst c <= m)) b.

(** The invariant of the game state: a board of the data model with no
    negative rank, and a score that is not negative. *)
Definition state_ok (s : State) : Prop :=
  wf_board (_board s) /\ ranks_nonneg (_board s) /\ 0 <= score s.

(** ** Monadic reasoning *)

Lemma bind_run {A B : Type} (m : M A) (f : A -> M B) g a g' :
  m g = inr (a, g') -> bind m f g = f a g'.
Proof. intros H. unfold bind. now rewrite H. Qed.

(** A two-step induction principle for the walks. *)
Lemma list_pair_ind {A : Type} (P : list A -> Prop) :
  P [] -> (forall a, P [a]) ->
  (forall a b l, P l -> P (b :: l) -> P (a :: b :: l)) ->
  forall l, P l.
Proof.
  intros H0 H1 H2 l.
  assert (P l /\ forall a, P (a :: l)) as [H _]; [| exact H].
  induction l as [| x l [IH IH']]; split; auto.
Qed.

(** ** The combine routine *)

Lemma merge_walk_step (cur nxt : cell) (rest : list cell) :
  merge_walk (cur :: nxt :: rest)
  = if (fst cur =? 1) && (fst nxt =? 1) then
      let (out, s) := merge_walk rest in ((2, snd nxt) :: out, 2 + s)
    else if Z.abs (fst cur - fst nxt) =? 1 then
      let (out, s) := merge_walk rest in
      ((Z.max (fst cur) (fst nxt) + 1, snd nxt) :: out,
       (fst cur + fst nxt) + s)
    else
      let (out, s) := merge_walk (nxt :: rest) in (cur :: out, s).
Proof. reflexivity. Qed.

Lemma rank_walk_step (cur nxt : Z) (rest : list Z) :
  rank_walk (cur :: nxt :: rest)
  = if (cur =? 1) && (nxt =? 1) then
      let (out, s) := rank_walk rest in (2 :: out, 2 + s)
    else if Z.abs (cur - nxt) =? 1 then
      let (out, s) := rank_walk rest in
      (Z.max cur nxt + 1 :: out, (cur + nxt) + s)
    else
      let (out, s) := rank_walk (nxt :: rest) in (cur :: out, s).
Proof. reflexivity. Qed.

Lemma at_index_app (pre suf : list cell) (c : cell) :
  at_index (pre ++ c :: suf) (length pre) = c.
Proof.
  unfold at_index. rewrite app_nth2 by lia. now rewrite Nat.sub_diag.
Qed.

Lemma combine_loop_spec (n : nat) :
  forall suf pre acc sc,
    (length suf <= n)%nat ->
    fold_left (fun st i => combine_step (pre ++ suf) i st)
              (seq (length pre) (length suf))
              (mk_combine_state acc (length pre) sc)
    = mk_combine_state (acc ++ fst (merge_walk suf))
                       (length (pre ++ suf))
                       (sc + snd (merge_walk suf)).
Proof.
  induction n as [| n IH]; intros suf pre acc sc Hn.
  - destruct suf; [| simpl in Hn; lia].
    simpl. now rewrite !app_nil_r, Z.add_0_r.
  - destruct suf as [| c [| x rest]].
    + simpl. now rewrite !app_nil_r, Z.add_0_r.
    + simpl. unfold combine_step. simpl values_counter.
      replace (length pre =? length pre + 1)%nat with false
        by (symmetry; apply Nat.eqb_neq; lia).
      replace (length pre + 1 <? length (pre ++ [c]))%nat with false
        by (symmetry; apply Nat.ltb_ge; rewrite length_app; simpl; lia).
      rewrite at_index_app. simpl.
      f_equal; [rewrite length_app; simpl; lia | lia].
    + change (seq (length pre) (length (c :: x :: rest)))
        with (length pre :: S (length pre) :: seq (S (S (length pre))) (length rest)).
      cbn [fold_left].
      assert (Hc : at_index (pre ++ c :: x :: rest) (length pre) = c)
        by apply at_index_app.
      assert (Hx : at_index (pre ++ c :: x :: rest) (length pre + 1) = x).
      { replace (pre ++ c :: x :: rest) with ((pre ++ [c]) ++ x :: rest)
          by now rewrite <- app_assoc.
        replace (length pre + 1)%nat with (length (pre ++ [c]))
          by (rewrite length_app; simpl; lia).
        apply at_index_app. }
      assert (Hlt : (length pre + 1 <? length (pre ++ c :: x :: rest))%nat = true)
        by (apply Nat.ltb_lt; rewrite length_app; simpl; lia).
      assert (Hne : (length pre =? length pre + 1)%nat = false)
        by (apply Nat.eqb_neq; lia).
      assert (Hskip : forall a s,
                 combine_step (pre ++ c :: x :: rest) (S (length pre))
                   (mk_combine_state a (S (S (length pre))) s)
                 = mk_combine_state a (S (S (length pre))) s).
      { intros. unfold combine_step. simpl values_counter.
        replace (S (S (length pre)) =? S (length pre) + 1)%nat with true
          by (symmetry; apply Nat.eqb_eq; lia).
        reflexivity. }
      assert (Hpre2 : pre ++ c :: x :: rest = (pre ++ [c; x]) ++ rest)
        by now rewrite <- app_assoc.
      assert (Hlen2 : S (S (length pre)) = length (pre ++ [c; x]))
        by (rewrite length_app; simpl; lia).
      assert (Hpre1 : pre ++ c :: x :: rest = (pre ++ [c]) ++ x :: rest)
        by now rewrite <- app_assoc.
      assert (Hlen1 : S (length pre) = length (pre ++ [c]))
        by (rewrite length_app; simpl; lia).
      assert (Hfirst :
        combine_step (pre ++ c :: x :: rest) (length pre)
          (mk_combine_state acc (length pre) sc)
        = if (fst c =? 1) && (fst x =? 1) then
            mk_combine_state (acc ++ [(2, snd x)]) (S (S (length pre))) (sc + 2)
          else if Z.abs (fst c - fst x) =? 1 then
            mk_combine_state (acc ++ [(Z.max (fst c) (fst x) + 1, snd x)])
                             (S (S (length pre))) (sc + (fst c + fst x))
          else mk_combine_state (acc ++ [c]) (S (length pre)) sc).
      { unfold combine_step. simpl values_counter.
        rewrite Hne, Hlt, Hc, Hx. cbv zeta. simpl new_values. simpl score_acc.
        replace ((fst c =? fst x) && (fst x =? 1))
          with ((fst c =? 1) && (fst x =? 1)); [reflexivity |].
        destruct (fst x =? 1) eqn:E; [| now rewrite !andb_false_r].
        apply Z.eqb_eq in E. now rewrite E. }
      rewrite Hfirst. clear Hfirst.
      rewrite merge_walk_step.
      destruct ((fst c =? 1) && (fst x =? 1)).
      * rewrite Hskip. rewrite Hpre2, Hlen2.
        rewrite (IH rest (pre ++ [c; x])) by (simpl in Hn; lia).
        destruct (merge_walk rest) as [out s]. cbn [fst snd].
        f_equal; [now rewrite <- app_assoc | lia].
      * destruct (Z.abs (fst c - fst x) =? 1).
        -- rewrite Hskip. rewrite Hpre2, Hlen2.
           rewrite (IH rest (pre ++ [c; x])) by (simpl in Hn; lia).
           destruct (merge_walk rest) as [out s]. cbn [fst snd].
           f_equal; [now rewrite <- app_assoc | lia].
        -- change (fold_left ?f ?l (combine_step ?v ?i ?st))
             with (fold_left f (i :: l) st).
           rewrite Hpre1.
           change (S (length pre) :: seq (S (S (length pre))) (length rest))
             with (seq (S (length pre)) (length (x :: rest))).
           rewrite Hlen1.
           rewrite (IH (x :: rest) (pre ++ [c])) by (simpl in *; lia).
           destruct (merge_walk (x :: rest)) as [out s]. cbn [fst snd].
           now rewrite <- app_assoc.
Qed.

Lemma combine_values_walk (line : group) :
  combine_values line = combine_spec line.
Proof.
  unfold combine_values, combine_spec, range. cbv zeta.
  set (values := filter (fun c => negb (fst c =? 0)) line).
  pose proof (combine_loop_spec (length values) values [] [] 0 (le_n _)) as H.
  etransitivity;
    [exact (f_equal (fun st => (new_values st, score_acc st)) H) |].
  cbn [new_values score_acc app]. now destruct (merge_walk values).
Qed.

Lemma merge_walk_length (vs : list cell) :
  (length (fst (merge_walk vs)) <= length vs)%nat.
Proof.
  induction vs as [| a | a b l IH1 IH2] using list_pair_ind.
  - simpl; lia.
  - simpl; lia.
  - rewrite merge_walk_step.
    destruct (merge_walk l) as [o1 s1], (merge_walk (b :: l)) as [o2 s2].
    cbn [fst length] in *.
    destruct ((fst a =? 1) && (fst b =? 1)); [cbn [fst length]; lia |].
    destruct (Z.abs (fst a - fst b) =? 1); cbn [fst length]; lia.
Qed.

Lemma combine_values_length (line : group) :
  (length (fst (combine_values line)) <= length line)%nat.
Proof.
  rewrite combine_values_walk. unfold combine_spec.
  etransitivity; [apply merge_walk_length | apply filter_length_le].
Qed.

Lemma merge_walk_ranks (vs : list cell) :
  map fst (fst (merge_walk vs)) = fst (rank_walk (map fst vs)) /\
  snd (merge_walk vs) = snd (rank_walk (map fst vs)).
Proof.
  induction vs as [| a | a b l [IH1 IH1'] [IH2 IH2']] using list_pair_ind.
  - now split.
  - now split.
  - cbn [map] in *. rewrite merge_walk_step, rank_walk_step.
    destruct (merge_walk l) as [o1 s1], (merge_walk (b :: l)) as [o2 s2].
    destruct (rank_walk (map fst l)) as [r1 t1].
    destruct (rank_walk (fst b :: map fst l)) as [r2 t2].
    cbn [fst snd] in *. subst.
    destruct ((fst a =? 1) && (fst b =? 1)); [now split |].
    destruct (Z.abs (fst a - fst b) =? 1); now split.
Qed.

Lemma filter_ranks (l : group) :
  map fst (filter (fun c => negb (fst c =? 0)) l)
  = filter (fun r => negb (r =? 0)) (map fst l).
Proof.
  induction l as [| c l IH]; [reflexivity |].
  cbn [filter map]. destruct (fst c =? 0); cbn [negb map]; now rewrite IH.
Qed.

Lemma rank_walk_nonneg (rs : list Z) :
  Forall (fun r => 0 <= r) rs ->
  Forall (fun r => 0 <= r) (fst (rank_walk rs)) /\ 0 <= snd (rank_walk rs).
Proof.
  induction rs as [| a | a b l IH1 IH2] using list_pair_ind; intros H.
  - split; [constructor | cbn; lia].
  - split; [exact H | cbn; lia].
  - rewrite rank_walk_step.
    inversion H as [| ? ? Ha Hb]; subst.
    inversion Hb as [| ? ? Hb' Hl]; subst.
    destruct (IH1 Hl) as [F1 S1]. destruct (IH2 Hb) as [F2 S2].
    destruct (rank_walk l) as [r1 t1], (rank_walk (b :: l)) as [r2 t2].
    cbn [fst snd] in *.
    destruct ((a =? 1) && (b =? 1)).
    + cbn [fst snd]. split; [constructor; [lia | assumption] | lia].
    + destruct (Z.abs (a - b) =? 1); cbn [fst snd].
      * split; [constructor; [lia | assumption] | lia].
      * split; [constructor; assumption | lia].
Qed.

Lemma filter_nonneg (rs : list Z) :
  Forall (fun r => 0 <= r) rs ->
  Forall (fun r => 0 <= r) (filter (fun r => negb (r =? 0)) rs).
Proof.
  intros H. apply Forall_forall. intros x Hx.
  apply filter_In in Hx. rewrite Forall_forall in H. now apply H.
Qed.

Lemma rank_line_nonneg (rs : list Z) :
  Forall (fun r => 0 <= r) rs ->
  Forall (fun r => 0 <= r) (fst (rank_line rs)) /\ 0 <= snd (rank_line rs).
Proof.
  intros H. unfold rank_line.
  destruct (rank_walk_nonneg _ (filter_nonneg _ H)) as [F S].
  destruct (rank_walk _) as [out s]. cbn [fst snd] in *. split; [| exact S].
  apply Forall_app. split; [exact F |].
  apply Forall_forall. intros x Hx. apply repeat_spec in Hx. lia.
Qed.

(** ** Padding *)

Lemma fresh_cells_run {A : Type} (xs : list A) (g : rng) :
  exists pad g',
    generate xs (fun _ => k <- get_random_key ;; ret (0, k)) g = inr (pad, g')
    /\ map fst pad = repeat 0 (length xs).
Proof.
  revert g. induction xs as [| x xs IH]; intros g.
  - exists [], g. now split.
  - destruct (IH (fun n => g (S n))) as (pad & g' & E & R).
    exists ((0, 0 + g 0%nat mod (1000000 - 0 + 1)) :: pad), g'.
    split; [| cbn [map fst repeat length]; now rewrite R].
    cbn [generate].
    rewrite (bind_run _ _ g (0, 0 + g 0%nat mod (1000000 - 0 + 1))
               (fun n => g (S n)) eq_refl).
    now rewrite (bind_run _ _ _ _ _ E).
Qed.

Lemma pad_values_raises (v : list cell) (g : rng) :
  (BOARD_SIZE < length v)%nat -> pad_values v g = inl ValueError.
Proof.
  intros H. unfold pad_values.
  apply Nat.ltb_lt in H. now rewrite H.
Qed.

Lemma pad_values_run (v : list cell) (g : rng) :
  (length v <= BOARD_SIZE)%nat ->
  exists pad g',
    pad_values v g = inr (v ++ pad, g')
    /\ map fst pad = repeat 0 (BOARD_SIZE - length v).
Proof.
  intros H. unfold pad_values.
  replace (BOARD_SIZE <? length v)%nat with false
    by (symmetry; apply Nat.ltb_ge; exact H).
  destruct (fresh_cells_run (range (BOARD_SIZE - length v)) g)
    as (pad & g' & E & R).
  exists pad, g'. split.
  - now rewrite (bind_run _ _ _ _ _ E).
  - rewrite R. unfold range. now rewrite length_seq.
Qed.

Lemma line_run (l : group) (g : rng) :
  (length l <= BOARD_SIZE)%nat ->
  exists p g',
    pad_values (fst (combine_values l)) g = inr (p, g')
    /\ map fst p = fst (rank_line (map fst l))
    /\ length p = BOARD_SIZE
    /\ snd (combine_values l) = snd (rank_line (map fst l)).
Proof.
  intros H.
  pose proof (combine_values_length l) as Hlen.
  destruct (pad_values_run (fst (combine_values l)) g) as (pad & g' & E & R);
    [lia |].
  exists (fst (combine_values l) ++ pad), g'.
  split; [exact E |].
  rewrite combine_values_walk in *. unfold combine_spec in *.
  destruct (merge_walk_ranks (filter (fun c => negb (fst c =? 0)) l))
    as [Hr Hs].
  rewrite filter_ranks in Hr, Hs.
  unfold rank_line.
  destruct (rank_walk _) as [out s]. cbn [fst snd] in *.
  subst out s.
  repeat split.
  - rewrite map_app. f_equal.
    etransitivity; [exact R |]. now rewrite length_map.
  - rewrite length_app.
    pose proof (f_equal (@length Z) R) as HL.
    rewrite length_map, repeat_length in HL. unfold group, cell in *. lia.
Qed.

(** ** Boards *)

Lemma length4 {A : Type} (l : list A) :
  length l = BOARD_SIZE -> exists a b c d, l = [a; b; c; d].
Proof.
  destruct l as [| a [| b [| c [| d [| e l]]]]]; try discriminate.
  intros _. now exists a, b, c, d.
Qed.

Lemma wf_board_cells (b : board) :
  wf_board b ->
  exists c00 c01 c02 c03 c10 c11 c12 c13 c20 c21 c22 c23 c30 c31 c32 c33,
    b = [[c00; c01; c02; c03]; [c10; c11; c12; c13];
         [c20; c21; c22; c23]; [c30; c31; c32; c33]].
Proof.
  intros [Hb Hr]. destruct (length4 b Hb) as (r0 & r1 & r2 & r3 & ->).
  clear Hb.
  repeat match goal with
         | H : Forall _ (_ :: _) |- _ => inversion H; clear H; subst
         end.
  repeat match goal with
         | H : length ?r = BOARD_SIZE |- _ =>
             destruct (length4 r H) as (? & ? & ? & ? & ->); clear H
         end.
  do 16 eexists. reflexivity.
Qed.

Lemma wf_board_explicit
    (c00 c01 c02 c03 c10 c11 c12 c13 c20 c21 c22 c23 c30 c31 c32 c33 : cell) :
  wf_board [[c00; c01; c02; c03]; [c10; c11; c12; c13];
            [c20; c21; c22; c23]; [c30; c31; c32; c33]].
Proof. split; [reflexivity | repeat constructor]. Qed.

(** One iteration of the loop of a move routine, once the line is known. *)
Lemma line_iter_run (post : group -> group) (line : group) (nb : board)
    (tot : Z) (g : rng) (p : group) (g' : rng) :
  pad_values (fst (combine_values line)) g = inr (p, g') ->
  (let '(values, score) := combine_values line in
   padded <- pad_values values ;;
   ret (nb ++ [post padded], tot + score)) g
  = inr ((nb ++ [post p], tot + snd (combine_values line)), g').
Proof.
  destruct (combine_values line) as [v s]. cbn [fst snd]. intros H.
  now rewrite (bind_run _ _ _ _ _ H).
Qed.

Lemma line_get_run (get : nat -> M group) (pre post : group -> group)
    (i : nat) (l : group) (nb : board) (tot : Z) (g : rng) (p : group)
    (g' : rng) :
  (forall g, get i g = inr (l, g)) ->
  pad_values (fst (combine_values (pre l))) g = inr (p, g') ->
  (line <- get i ;;
   let '(values, score) := combine_values (pre line) in
   padded <- pad_values values ;;
   ret (nb ++ [post padded], tot + score)) g
  = inr ((nb ++ [post p], tot + snd (combine_values (pre l))), g').
Proof.
  intros G E. rewrite (bind_run _ _ _ _ _ (G g)). now apply line_iter_run.
Qed.

Tactic Notation "run_bind" uconstr(H) :=
  etransitivity; [apply bind_run; exact H |]; cbv beta iota.

(** The loop shared by the four move routines: [get] fetches the line,
    [pre] and [post] are the reversals around the combine routine. *)
Lemma lines_loop_run (get : nat -> M group) (pre post : group -> group)
    (l0 l1 l2 l3 : group) (g : rng) :
  (forall g, get 0%nat g = inr (l0, g)) ->
  (forall g, get 1%nat g = inr (l1, g)) ->
  (forall g, get 2%nat g = inr (l2, g)) ->
  (forall g, get 3%nat g = inr (l3, g)) ->
  (length (pre l0) <= BOARD_SIZE)%nat ->
  (length (pre l1) <= BOARD_SIZE)%nat ->
  (length (pre l2) <= BOARD_SIZE)%nat ->
  (length (pre l3) <= BOARD_SIZE)%nat ->
  exists p0 p1 p2 p3 g',
    for_each (range BOARD_SIZE)
      (fun i '(new_board, total_score) =>
         line <- get i ;;
         let '(values, score) := combine_values (pre line) in
         padded <- pad_values values ;;
         ret (new_board ++ [post padded], total_score + score))
      ([], 0) g
    = inr (([post p0; post p1; post p2; post p3],
            0 + snd (rank_line (map fst (pre l0)))
              + snd (rank_line (map fst (pre l1)))
              + snd (rank_line (map fst (pre l2)))
              + snd (rank_line (map fst (pre l3)))), g')
    /\ (map fst p0 = fst (rank_line (map fst (pre l0))) /\ length p0 = BOARD_SIZE)
    /\ (map fst p1 = fst (rank_line (map fst (pre l1))) /\ length p1 = BOARD_SIZE)
    /\ (map fst p2 = fst (rank_line (map fst (pre l2))) /\ length p2 = BOARD_SIZE)
    /\ (map fst p3 = fst (rank_line (map fst (pre l3))) /\ length p3 = BOARD_SIZE).
Proof.
  intros G0 G1 G2 G3 L0 L1 L2 L3.
  destruct (line_run (pre l0) g L0) as (p0 & g0 & E0 & R0 & P0 & S0).
  destruct (line_run (pre l1) g0 L1) as (p1 & g1 & E1 & R1 & P1 & S1).
  destruct (line_run (pre l2) g1 L2) as (p2 & g2 & E2 & R2 & P2 & S2).
  destruct (line_run (pre l3) g2 L3) as (p3 & g3 & E3 & R3 & P3 & S3).
  exists p0, p1, p2, p3, g3.
  split; [| now repeat split].
  rewrite <- S0, <- S1, <- S2, <- S3.
  unfold range, BOARD_SIZE. cbn [seq for_each].
  run_bind (line_get_run get pre post 0 l0 [] 0 g p0 g0 G0 E0).
  run_bind (line_get_run get pre post 1 l1 _ _ g0 p1 g1 G1 E1).
  run_bind (line_get_run get pre post 2 l2 _ _ g1 p2 g2 G2 E2).
  run_bind (line_get_run get pre post 3 l3 _ _ g2 p3 g3 G3 E3).
  reflexivity.
Qed.

Ltac explicit_lines :=
  repeat match goal with
         | H : length ?p = BOARD_SIZE |- _ =>
             is_var p; destruct (length4 p H) as (? & ? & ? & ? & ->);
             clear H
         end.

Ltac finish_ranks R0 R1 R2 R3 :=
  cbv [reverse rev app map] in R0, R1, R2, R3;
  cbv [rank_move rank_rows ranks rank_transpose range BOARD_SIZE map seq nth
       reverse rev app];
  rewrite <- R0, <- R1, <- R2, <- R3; reflexivity.

Ltac finish_score :=
  cbv [rank_score ranks rank_transpose range BOARD_SIZE map seq nth
       reverse rev app fold_left];
  reflexivity.

Lemma move_raw_run (b : board) (d : Direction) (g : rng) :
  wf_board b ->
  exists b' s g',
    move_raw b d g = inr ((b', s), g')
    /\ wf_board b'
    /\ ranks b' = rank_move d (ranks b)
    /\ s = rank_score d (ranks b).
Proof.
  intros Hwf.
  destruct (wf_board_cells b Hwf)
    as (c00 & c01 & c02 & c03 & c10 & c11 & c12 & c13
        & c20 & c21 & c22 & c23 & c30 & c31 & c32 & c33 & ->).
  clear Hwf.
  set (b := [[c00; c01; c02; c03]; [c10; c11; c12; c13];
             [c20; c21; c22; c23]; [c30; c31; c32; c33]]).
  destruct d.
  - destruct (lines_loop_run (ith_column b) (fun l => l) (fun l => l)
                [c00; c10; c20; c30] [c01; c11; c21; c31]
                [c02; c12; c22; c32] [c03; c13; c23; c33] g)
      as (p0 & p1 & p2 & p3 & g' & E & [R0 P0] & [R1 P1] & [R2 P2] & [R3 P3]);
      try reflexivity; try (unfold BOARD_SIZE; simpl; lia).
    explicit_lines.
    eexists _, _, g'. split; [| split; [| split]].
    + unfold move_raw, _move_up. run_bind E. reflexivity.
    + apply wf_board_explicit.
    + subst b. finish_ranks R0 R1 R2 R3.
    + subst b. finish_score.
  - destruct (lines_loop_run (ith_column b) reverse reverse
                [c00; c10; c20; c30] [c01; c11; c21; c31]
                [c02; c12; c22; c32] [c03; c13; c23; c33] g)
      as (p0 & p1 & p2 & p3 & g' & E & [R0 P0] & [R1 P1] & [R2 P2] & [R3 P3]);
      try reflexivity; try (unfold BOARD_SIZE; simpl; lia).
    explicit_lines.
    eexists _, _, g'. split; [| split; [| split]].
    + unfold move_raw, _move_down. run_bind E. reflexivity.
    + apply wf_board_explicit.
    + subst b. finish_ranks R0 R1 R2 R3.
    + subst b. finish_score.
  - destruct (lines_loop_run (ith_row b) (fun l => l) (fun l => l)
                [c00; c01; c02; c03] [c10; c11; c12; c13]
                [c20; c21; c22; c23] [c30; c31; c32; c33] g)
      as (p0 & p1 & p2 & p3 & g' & E & [R0 P0] & [R1 P1] & [R2 P2] & [R3 P3]);
      try reflexivity; try (unfold BOARD_SIZE; simpl; lia).
    explicit_lines.
    eexists _, _, g'. split; [| split; [| split]].
    + unfold move_raw, _move_left. exact E.
    + apply wf_board_explicit.
    + subst b. finish_ranks R0 R1 R2 R3.
    + subst b. finish_score.
  - destruct (lines_loop_run (ith_row b) reverse reverse
                [c00; c01; c02; c03] [c10; c11; c12; c13]
                [c20; c21; c22; c23] [c30; c31; c32; c33] g)
      as (p0 & p1 & p2 & p3 & g' & E & [R0 P0] & [R1 P1] & [R2 P2] & [R3 P3]);
      try reflexivity; try (unfold BOARD_SIZE; simpl; lia).
    explicit_lines.
    eexists _, _, g'. split; [| split; [| split]].
    + unfold move_raw, _move_right. exact E.
    + apply wf_board_explicit.
    + subst b. finish_ranks R0 R1 R2 R3.
    + subst b. finish_score.
Qed.

Lemma just_values_eq_ranks (b b' : board) :
  wf_board b -> wf_board b' ->
  (_just_values b = _just_values b' <-> ranks b = ranks b').
Proof.
  intros H H'.
  destruct (wf_board_cells b H)
    as (c00 & c01 & c02 & c03 & c10 & c11 & c12 & c13
        & c20 & c21 & c22 & c23 & c30 & c31 & c32 & c33 & ->).
  destruct (wf_board_cells b' H')
    as (e00 & e01 & e02 & e03 & e10 & e11 & e12 & e13
        & e20 & e21 & e22 & e23 & e30 & e31 & e32 & e33 & ->).
  cbn. split; intros E; injection E; intros; congruence.
Qed.

Lemma transpose_run (b : board) :
  wf_board b ->
  exists bt, is_transpose b bt /\ wf_board bt
             /\ ranks bt = rank_transpose (ranks b).
Proof.
  intros H.
  destruct (wf_board_cells b H)
    as (c00 & c01 & c02 & c03 & c10 & c11 & c12 & c13
        & c20 & c21 & c22 & c23 & c30 & c31 & c32 & c33 & ->).
  exists [[c00; c10; c20; c30]; [c01; c11; c21; c31];
          [c02; c12; c22; c32]; [c03; c13; c23; c33]].
  split; [| split].
  - intros g. reflexivity.
  - apply wf_board_explicit.
  - reflexivity.
Qed.

Lemma rank_transpose_involutive (b : board) :
  wf_board b -> rank_transpose (rank_transpose (ranks b)) = ranks b.
Proof.
  intros H.
  destruct (wf_board_cells b H)
    as (c00 & c01 & c02 & c03 & c10 & c11 & c12 & c13
        & c20 & c21 & c22 & c23 & c30 & c31 & c32 & c33 & ->).
  reflexivity.
Qed.

Lemma unchanged_true (d : Direction) (R : list (list Z)) :
  unchanged d R = true <-> R = rank_move d R.
Proof.
  unfold unchanged.
  destruct (list_eq_dec (list_eq_dec Z.eq_dec) R (rank_move d R));
    split; intros; congruence.
Qed.

(** What [move] returns on a board of the data model. *)
Lemma move_run (b : board) (d : Direction) (g : rng) :
  wf_board b ->
  exists b' g',
    move_raw b d g = inr ((b', rank_score d (ranks b)), g')
    /\ wf_board b'
    /\ ranks b' = rank_move d (ranks b)
    /\ move b d g
       = inr (if unchanged d (ranks b) then (None, 0)
              else (Some b', rank_score d (ranks b)), g').
Proof.
  intros H.
  destruct (move_raw_run b d g H) as (b' & s & g' & E & W & R & ->).
  exists b', g'. split; [exact E | split; [exact W | split; [exact R |]]].
  unfold move. run_bind E.
  pose proof (just_values_eq_ranks b b' H W) as J.
  pose proof (unchanged_true d (ranks b)) as U.
  destruct (list_eq_dec Z.eq_dec (_just_values b) (_just_values b'))
    as [e | n], (unchanged d (ranks b)); try reflexivity.
  - exfalso. apply J in e. rewrite R in e. apply U in e. discriminate.
  - exfalso. apply n, J. rewrite R. now apply U.
Qed.

Lemma move_total (b : board) (d : Direction) (g : rng) :
  wf_board b ->
  exists r g',
    move b d g = inr (r, g')
    /\ match fst r with
       | Some nb => wf_board nb /\ unchanged d (ranks b) = false
       | None => unchanged d (ranks b) = true /\ snd r = 0
       end.
Proof.
  intros H. destruct (move_run b d g H) as (b' & g' & _ & W & _ & E).
  rewrite E. eexists _, g'. split; [reflexivity |].
  destruct (unchanged d (ranks b)); cbn; auto.
Qed.

Lemma legal_spec (b : board) (d : Direction) :
  wf_board b -> legal b d = negb (unchanged d (ranks b)).
Proof.
  intros H. unfold legal.
  destruct (move_run b d zero_tape H) as (b' & g' & _ & _ & _ & E).
  rewrite E. now destruct (unchanged d (ranks b)).
Qed.

Lemma rank_score_nonneg (b : board) (d : Direction) :
  wf_board b -> ranks_nonneg b -> 0 <= rank_score d (ranks b).
Proof.
  intros H N.
  destruct (wf_board_cells b H)
    as (c00 & c01 & c02 & c03 & c10 & c11 & c12 & c13
        & c20 & c21 & c22 & c23 & c30 & c31 & c32 & c33 & ->).
  unfold ranks_nonneg in N.
  repeat match goal with
         | H : Forall _ (_ :: _) |- _ => inversion H; clear H; subst
         end.
  assert (L : forall a b c d : Z, 0 <= a -> 0 <= b -> 0 <= c -> 0 <= d ->
                0 <= snd (rank_line [a; b; c; d])).
  { intros. apply rank_line_nonneg. repeat constructor; assumption. }
  destruct d;
    cbv [rank_score ranks rank_transpose range BOARD_SIZE map seq nth
         reverse rev app fold_left];
    repeat match goal with
           | |- context [snd (rank_line [?a; ?b; ?c; ?d])] =>
               let t := constr:(snd (rank_line [a; b; c; d])) in
               lazymatch goal with
               | _ : 0 <= t |- _ => fail
               | _ => assert (0 <= t) by (apply L; assumption)
               end
           end;
    lia.
Qed.

(** ** Terminal detection *)

Lemma is_game_over_not_true (b : board) (g g' : rng) :
  is_game_over b g <> inr (true, g').
Proof.
  unfold is_game_over, directions. cbn [all_moves_None]. unfold bind at 1.
  destruct (move b UP g) as [e | [r g1]]; [discriminate |].
  cbn [tuple_is_None]. unfold ret. intros H. discriminate.
Qed.

Lemma is_game_over_run (b : board) (g : rng) :
  wf_board b -> exists g', is_game_over b g = inr (false, g').
Proof.
  intros H. destruct (move_total b UP g H) as (r & g' & E & _).
  exists g'. unfold is_game_over, directions. cbn [all_moves_None].
  run_bind E. reflexivity.
Qed.

(** ** Spawning a tile *)

Lemma empty_tiles_run (b : board) (g : rng) :
  wf_board b -> empty_tiles b g = inr (empty_positions b, g).
Proof.
  intros H.
  destruct (wf_board_cells b H)
    as (c00 & c01 & c02 & c03 & c10 & c11 & c12 & c13
        & c20 & c21 & c22 & c23 & c30 & c31 & c32 & c33 & ->).
  reflexivity.
Qed.

Lemma empty_positions_spec (b : board) (i j : nat) :
  wf_board b ->
  (In (i, j) (empty_positions b) <-> exists k, cell_at b i j = Some (0, k)).
Proof.
  intros [Hb Hr]. unfold empty_positions. rewrite filter_In. split.
  - intros [_ E]. destruct (cell_at b i j) as [[r k] |]; [| discriminate].
    cbn [fst] in E. apply Z.eqb_eq in E. subst. now exists k.
  - intros [k E]. split; [| now rewrite E].
    unfold cell_at in E.
    destruct (nth_error b i) as [row |] eqn:Ei; [| discriminate].
    assert (Hi : (i < length b)%nat) by (apply nth_error_Some; congruence).
    assert (Hj : (j < length row)%nat) by (apply nth_error_Some; congruence).
    rewrite Forall_forall in Hr.
    rewrite (Hr row (nth_error_In _ _ Ei)) in Hj. rewrite Hb in Hi.
    apply in_prod; apply in_seq; lia.
Qed.

Lemma empty_positions_NoDup (b : board) : NoDup (empty_positions b).
Proof.
  unfold empty_positions. apply NoDup_filter.
  unfold range, BOARD_SIZE. cbn.
  repeat (constructor; [cbn; intuition congruence |]). constructor.
Qed.

Lemma filter_length_cons {A : Type} (f : A -> bool) (x : A) (l : list A) :
  length (filter f (x :: l))
  = ((if f x then 1 else 0) + length (filter f l))%nat.
Proof. cbn [filter]. now destruct (f x). Qed.

Lemma insert_value_run (b : board) (i j : nat) (v : Z) (g : rng) :
  wf_board b -> (i < BOARD_SIZE)%nat -> (j < BOARD_SIZE)%nat ->
  exists b',
    insert_value b i j v g = inr (b', fun n => g (S n))
    /\ wf_board b'
    /\ cell_at b' i j = Some (v, 0 + g 0%nat mod (1000000 - 0 + 1))
    /\ (forall i' j', (i', j') <> (i, j) -> cell_at b' i' j' = cell_at b i' j')
    /\ (forall k, cell_at b i j = Some (0, k) -> v <> 0 ->
                  occupied b' = S (occupied b)).
Proof.
  intros H Hi Hj.
  destruct (wf_board_cells b H)
    as (c00 & c01 & c02 & c03 & c10 & c11 & c12 & c13
        & c20 & c21 & c22 & c23 & c30 & c31 & c32 & c33 & ->).
  unfold BOARD_SIZE in Hi, Hj.
  destruct i as [| [| [| [| i]]]]; try lia;
    destruct j as [| [| [| [| j]]]]; try lia;
    (eexists; split; [reflexivity |];
     split; [apply wf_board_explicit |];
     split; [reflexivity |];
     split;
     [ intros i' j' N;
       destruct i' as [| [| [| [| i']]]]; destruct j' as [| [| [| [| j']]]];
       try reflexivity; congruence
     | intros k Hc Hv; cbn in Hc; injection Hc as ->;
       unfold occupied; cbn [concat app]; rewrite !filter_length_cons;
       cbn [fst filter length];
       replace (v =? 0) with false by (symmetry; apply Z.eqb_neq; exact Hv);
       cbn [Z.eqb negb]; lia ]).
Qed.

Lemma choice_run {A : Type} (l : list A) (g : rng) (x : A) :
  nth_error l (Z.to_nat (g 0%nat mod Z.of_nat (length l))) = Some x ->
  choice l g = inr (x, fun n => g (S n)).
Proof.
  intros H. unfold choice, bind, draw. now rewrite H.
Qed.

Lemma with_random_tile_run (b : board) (g : rng) :
  wf_board b ->
  (empty_positions b = [] -> with_random_tile b g = inr (b, g))
  /\ (empty_positions b <> [] ->
      exists i j value key b',
        with_random_tile b g = inr (b', fun n => g (S (S (S n))))
        /\ nth_error (empty_positions b)
             (Z.to_nat (g 0%nat mod Z.of_nat (length (empty_positions b))))
           = Some (i, j)
        /\ value = (if Qlt_le_dec (Qmake (g 1%nat mod 2 ^ 53) (2 ^ 53)) (9 # 10)
                    then 1 else 2)
        /\ key = g 2%nat mod 1000001
        /\ (exists k, cell_at b i j = Some (0, k))
        /\ cell_at b' i j = Some (value, key)
        /\ (forall i' j', (i', j') <> (i, j) ->
                          cell_at b' i' j' = cell_at b i' j')
        /\ occupied b' = S (occupied b)
        /\ wf_board b').
Proof.
  intros H. split.
  - intros E. unfold with_random_tile.
    run_bind (empty_tiles_run b g H). now rewrite E.
  - intros NE.
    set (idx := Z.to_nat (g 0%nat mod Z.of_nat (length (empty_positions b)))).
    assert (Hidx : (idx < length (empty_positions b))%nat).
    { assert (0 < Z.of_nat (length (empty_positions b))).
      { destruct (empty_positions b); [congruence | cbn [length]; lia]. }
      pose proof (Z.mod_pos_bound (g 0%nat)
                    (Z.of_nat (length (empty_positions b))) ltac:(assumption)).
      subst idx. lia. }
    destruct (nth_error (empty_positions b) idx) as [[i j] |] eqn:En;
      [| apply nth_error_None in En; lia].
    pose proof (nth_error_In _ _ En) as Hin.
    assert (Hb : (i < BOARD_SIZE)%nat /\ (j < BOARD_SIZE)%nat).
    { unfold empty_positions in Hin. apply filter_In in Hin.
      destruct Hin as [Hp _]. apply in_prod_iff in Hp.
      unfold range in Hp. rewrite !in_seq in Hp. lia. }
    apply (empty_positions_spec b i j H) in Hin. destruct Hin as [k Hk].
    set (value := if Qlt_le_dec (Qmake (g 1%nat mod 2 ^ 53) (2 ^ 53)) (9 # 10)
                  then 1 else 2).
    assert (Hv : value <> 0) by (subst value; destruct (Qlt_le_dec _ _); lia).
    destruct (insert_value_run b i j value (fun n => g (S (S n))) H
                (proj1 Hb) (proj2 Hb))
      as (b' & E' & W' & C' & O' & N').
    exists i, j, value, (g 2%nat mod 1000001), b'.
    split; [| split; [reflexivity | split; [reflexivity | split; [reflexivity |
      split; [now exists k | split; [exact C' | split; [exact O' |
      split; [exact (N' k Hk Hv) | exact W']]]]]]]].
    unfold with_random_tile.
    run_bind (empty_tiles_run b g H).
    destruct (empty_positions b) as [| p l] eqn:Ep; [congruence |].
    run_bind (choice_run (p :: l) g (i, j) En).
    run_bind (eq_refl : random (fun n => g (S n))
                        = inr (Qmake (g 1%nat mod 2 ^ 53) (2 ^ 53),
                               fun n => g (S (S n)))).
    exact E'.
Qed.

Lemma with_random_tile_total (b : board) (g : rng) :
  wf_board b ->
  exists b' g', with_random_tile b g = inr (b', g') /\ wf_board b'.
Proof.
  intros H. destruct (with_random_tile_run b g H) as [E NE].
  destruct (empty_positions b) as [| p l] eqn:Ep.
  - exists b, g. now split; [apply E |].
  - destruct NE as (i & j & v & k & b' & R & _ & _ & _ & _ & _ & _ & _ & W);
      [congruence |].
    now exists b', (fun n => g (S (S (S n)))).
Qed.

(** The comparison of a draw [k / 2^53] with 9/10 and with the double
    nearest to 0.9 agree. *)
Lemma random_threshold (k : Z) :
  (Qmake k (2 ^ 53) < 9 # 10)%Q <-> k < 8106479329266893.
Proof.
  unfold Qlt. cbn [Qnum Qden].
  change (Z.pos (2 ^ 53)) with 9007199254740992. lia.
Qed.

(** ** The rank invariant *)

Lemma ranks_nonneg_ranks (b : board) :
  ranks_nonneg b <-> Forall (Forall (fun r => 0 <= r)) (ranks b).
Proof.
  unfold ranks_nonneg, ranks. rewrite Forall_map.
  split; intros H; eapply Forall_impl; try exact H;
    intros row Hr; now apply Forall_map.
Qed.

Lemma nth_nonneg (l : list Z) (i : nat) :
  Forall (fun r => 0 <= r) l -> 0 <= nth i l 0.
Proof.
  intros H. revert i.
  induction H as [| x l Hx _ IH]; intros [| i]; cbn [nth]; try lia.
  apply IH.
Qed.

Lemma rank_move_nonneg (b : board) (d : Direction) :
  wf_board b -> ranks_nonneg b ->
  Forall (Forall (fun r => 0 <= r)) (rank_move d (ranks b)).
Proof.
  intros H N.
  destruct (wf_board_cells b H)
    as (c00 & c01 & c02 & c03 & c10 & c11 & c12 & c13
        & c20 & c21 & c22 & c23 & c30 & c31 & c32 & c33 & ->).
  unfold ranks_nonneg in N.
  repeat match goal with
         | H : Forall _ (_ :: _) |- _ => inversion H; clear H; subst
         end.
  assert (L : forall a b c d : Z, 0 <= a -> 0 <= b -> 0 <= c -> 0 <= d ->
                Forall (fun r => 0 <= r) (fst (rank_line [a; b; c; d]))).
  { intros. apply rank_line_nonneg. repeat constructor; assumption. }
  destruct d;
    cbn [rank_move rank_rows ranks rank_transpose range BOARD_SIZE map seq
         rev app nth];
    repeat (apply Forall_cons || apply Forall_nil).
  all: first [ apply nth_nonneg, L; assumption
             | apply nth_nonneg, Forall_rev, L; assumption
             | apply Forall_rev, L; assumption
             | apply L; assumption ].
Qed.

Lemma move_preserves_ranks_nonneg (b : board) (d : Direction) (g : rng)
    (nb : board) (s : Z) (g' : rng) :
  wf_board b -> ranks_nonneg b ->
  move b d g = inr ((Some nb, s), g') -> ranks_nonneg nb.
Proof.
  intros H N E.
  destruct (move_run b d g H) as (b' & g1 & _ & _ & R & Em).
  rewrite Em in E. destruct (unchanged d (ranks b)); [discriminate |].
  injection E as <- _ _.
  apply ranks_nonneg_ranks. rewrite R. now apply rank_move_nonneg.
Qed.

Lemma ranks_nonneg_cell (b : board) (i j : nat) (c : cell) :
  ranks_nonneg b -> cell_at b i j = Some c -> 0 <= fst c.
Proof.
  unfold ranks_nonneg, cell_at. intros N E.
  destruct (nth_error b i) as [row |] eqn:Ei; [| discriminate].
  rewrite Forall_forall in N. specialize (N row (nth_error_In _ _ Ei)).
  rewrite Forall_forall in N. exact (N c (nth_error_In _ _ E)).
Qed.

Lemma ranks_nonneg_cells (b : board) :
  wf_board b ->
  (forall i j c, cell_at b i j = Some c -> 0 <= fst c) -> ranks_nonneg b.
Proof.
  intros H C.
  destruct (wf_board_cells b H)
    as (c00 & c01 & c02 & c03 & c10 & c11 & c12 & c13
        & c20 & c21 & c22 & c23 & c30 & c31 & c32 & c33 & ->).
  repeat constructor;
    match goal with
    | |- 0 <= fst ?c =>
        first [ exact (C 0%nat 0%nat c eq_refl) | exact (C 0%nat 1%nat c eq_refl)
              | exact (C 0%nat 2%nat c eq_refl) | exact (C 0%nat 3%nat c eq_refl)
              | exact (C 1%nat 0%nat c eq_refl) | exact (C 1%nat 1%nat c eq_refl)
              | exact (C 1%nat 2%nat c eq_refl) | exact (C 1%nat 3%nat c eq_refl)
              | exact (C 2%nat 0%nat c eq_refl) | exact (C 2%nat 1%nat c eq_refl)
              | exact (C 2%nat 2%nat c eq_refl) | exact (C 2%nat 3%nat c eq_refl)
              | exact (C 3%nat 0%nat c eq_refl) | exact (C 3%nat 1%nat c eq_refl)
              | exact (C 3%nat 2%nat c eq_refl) | exact (C 3%nat 3%nat c eq_refl) ]
    end.
Qed.

Lemma with_random_tile_preserves_ranks_nonneg (b b' : board) (g g' : rng) :
  wf_board b -> ranks_nonneg b ->
  with_random_tile b g = inr (b', g') -> ranks_nonneg b'.
Proof.
  intros H N E.
  destruct (with_random_tile_run b g H) as [E0 E1].
  destruct (empty_positions b) as [| p l] eqn:Ep.
  - rewrite (E0 eq_refl) in E. now injection E as <- _.
  - destruct E1 as (i & j & v & k & b1 & R & _ & V & _ & _ & C & O & _ & W);
      [discriminate |].
    rewrite R in E. injection E as <- _.
    apply ranks_nonneg_cells; [exact W |].
    intros i' j' c Ec.
    destruct (Nat.eq_dec i' i) as [-> | Ni];
      [destruct (Nat.eq_dec j' j) as [-> | Nj] |].
    + rewrite C in Ec. injection Ec as <-. cbn [fst]. subst v.
      destruct (Qlt_le_dec _ _); lia.
    + rewrite O in Ec by congruence. exact (ranks_nonneg_cell _ _ _ _ N Ec).
    + rewrite O in Ec by congruence. exact (ranks_nonneg_cell _ _ _ _ N Ec).
Qed.

(** ** The move search *)

Lemma sum_of_total {A : Type} (xs : list A) (f : A -> M Z) :
  (forall x g, exists y g', f x g = inr (y, g')) ->
  forall acc g, exists total g', sum_of xs f acc g = inr (total, g').
Proof.
  intros Hf. induction xs as [| x xs IH]; intros acc g.
  - now exists acc, g.
  - destruct (Hf x g) as (y & g1 & E).
    destruct (IH (acc + y) g1) as (t & g2 & E2).
    exists t, g2. cbn [sum_of]. run_bind E. exact E2.
Qed.

Lemma best_move_unfold (depth breadth : nat) (b : board) :
  best_move depth breadth b
  = (over <- is_game_over b ;;
     if over then ret (UP, -123456789)
     else
       '(best_score, best_direction) <-
         for_each directions (search_body depth breadth b) (-1, UP) ;;
       ret (best_direction, best_score)).
Proof. destruct depth; reflexivity. Qed.

Section Search.

Variables (depth breadth : nat).

(** The look-ahead returns on every board of the data model. *)
Hypothesis estimate_total :
  forall nb score g, wf_board nb ->
    exists t g', estimate depth breadth nb score g = inr (t, g').

Lemma search_body_run (b : board) (d : Direction) (st : Z * Direction)
    (g : rng) :
  wf_board b ->
  exists v g',
    total_value depth breadth b d g = inr (v, g')
    /\ search_body depth breadth b d st g
       = inr (match v with
              | Some t => keep_best st (d, t)
              | None => st
              end, g')
    /\ (match v with Some _ => true | None => false end) = legal b d.
Proof.
  intros H. destruct st as [bs bd].
  rewrite (legal_spec b d H).
  destruct (move_total b d g H) as ([[nb |] s] & g1 & Em & Hr);
    cbn [fst snd] in Hr.
  - destruct Hr as [Wnb U].
    destruct (estimate_total nb s g1 Wnb) as (t & g2 & Ee).
    exists (Some t), g2. split; [| split].
    + unfold total_value. run_bind Em. run_bind Ee. reflexivity.
    + unfold search_body. run_bind Em. run_bind Ee.
      unfold keep_best. cbn [fst snd]. now destruct (t >? bs).
    + now rewrite U.
  - destruct Hr as [U _].
    exists None, g1. split; [| split].
    + unfold total_value. run_bind Em. reflexivity.
    + unfold search_body. run_bind Em. reflexivity.
    + now rewrite U.
Qed.

Lemma search_loop_run (b : board) (ds : list Direction) :
  wf_board b ->
  forall st g,
    exists cands g',
      candidates depth breadth b ds g = inr (cands, g')
      /\ for_each ds (search_body depth breadth b) st g
         = inr (fold_left keep_best cands st, g')
      /\ map fst cands = filter (legal b) ds.
Proof.
  intros H. induction ds as [| d ds IH]; intros st g.
  - exists [], g. now repeat split.
  - destruct (search_body_run b d st g H) as (v & g1 & Ev & Eb & L).
    destruct (IH (match v with
                  | Some t => keep_best st (d, t)
                  | None => st
                  end) g1) as (cands & g2 & Ec & Ef & Lc).
    exists (match v with Some t => (d, t) :: cands | None => cands end), g2.
    split; [| split].
    + cbn [candidates]. run_bind Ev. run_bind Ec. reflexivity.
    + cbn [for_each]. run_bind Eb. rewrite Ef. now destruct v.
    + cbn [filter]. rewrite <- L. destruct v; cbn [map fst]; now rewrite Lc.
Qed.

End Search.

Lemma floordiv_run (a : Z) (n : nat) (g : rng) :
  (1 <= n)%nat -> floordiv a (Z.of_nat n) g = inr (a / Z.of_nat n, g).
Proof.
  intros H. unfold floordiv.
  replace (Z.of_nat n =? 0) with false by (symmetry; apply Z.eqb_neq; lia).
  reflexivity.
Qed.

Lemma estimate_total (depth breadth : nat) :
  (1 <= breadth)%nat ->
  (forall depth' b g, depth = S depth' -> wf_board b ->
     exists r g', best_move depth' breadth b g = inr (r, g')) ->
  forall nb score g, wf_board nb ->
    exists t g', estimate depth breadth nb score g = inr (t, g').
Proof.
  intros Hb IH nb score g W.
  destruct depth as [| depth']; [now exists score, g |].
  destruct (sum_of_total (range breadth)
              (fun _ => t <- with_random_tile nb ;;
                        r <- best_move depth' breadth t ;;
                        ret (snd r))) with (acc := 0) (g := g)
    as (total & g1 & Es).
  { intros _ g0.
    destruct (with_random_tile_total nb g0 W) as (t & g1 & Et & Wt).
    destruct (IH depth' t g1 eq_refl Wt) as (r & g2 & Er).
    exists (snd r), g2. run_bind Et. run_bind Er. reflexivity. }
  exists (score + total / Z.of_nat breadth), g1.
  unfold estimate. run_bind Es.
  run_bind (floordiv_run total breadth g1 Hb). reflexivity.
Qed.

Lemma best_move_total (depth breadth : nat) :
  (1 <= breadth)%nat ->
  forall b g, wf_board b ->
    exists r g', best_move depth breadth b g = inr (r, g').
Proof.
  intros Hb. induction depth as [| depth IH]; intros b g W.
  - destruct (is_game_over_run b g W) as (g1 & Eo).
    destruct (search_loop_run 0 breadth
                (estimate_total 0 breadth Hb ltac:(discriminate))
                b directions W (-1, UP) g1)
      as (cands & g2 & _ & Ef & _).
    rewrite best_move_unfold.
    destruct (fold_left keep_best cands (-1, UP)) as [bs bd] eqn:Ek.
    exists (bd, bs), g2. run_bind Eo. run_bind Ef. reflexivity.
  - assert (Et : forall nb score g, wf_board nb ->
                 exists t g', estimate (S depth) breadth nb score g
                              = inr (t, g')).
    { apply estimate_total; [exact Hb |].
      intros depth' b0 g0 E W0. injection E as <-. now apply IH. }
    destruct (is_game_over_run b g W) as (g1 & Eo).
    destruct (search_loop_run (S depth) breadth Et b directions W (-1, UP) g1)
      as (cands & g2 & _ & Ef & _).
    rewrite best_move_unfold.
    destruct (fold_left keep_best cands (-1, UP)) as [bs bd] eqn:Ek.
    exists (bd, bs), g2. run_bind Eo. run_bind Ef. reflexivity.
Qed.

Lemma estimate_returns (depth breadth : nat) :
  (1 <= breadth)%nat ->
  forall nb score g, wf_board nb ->
    exists t g', estimate depth breadth nb score g = inr (t, g').
Proof.
  intros Hb. apply estimate_total; [exact Hb |].
  intros depth' b g _ W. now apply best_move_total.
Qed.

(** The best of a list of candidates: either no candidate beats the start,
    or the result is the first candidate of greatest value. *)
Lemma keep_best_fold (cands : list (Direction * Z)) :
  forall (s0 : Z) (d0 : Direction),
    (Forall (fun c => snd c <= s0) cands
     /\ fold_left keep_best cands (s0, d0) = (s0, d0))
    \/ (exists pre d v post,
          cands = pre ++ (d, v) :: post
          /\ fold_left keep_best cands (s0, d0) = (v, d)
          /\ s0 < v
          /\ Forall (fun c => snd c < v) pre
          /\ Forall (fun c => snd c <= v) post).
Proof.
  induction cands as [| [d v] cands IH]; intros s0 d0.
  - left. now split.
  - cbn [fold_left].
    change (keep_best (s0, d0) (d, v))
      with (if v >? s0 then (v, d) else (s0, d0)).
    destruct (v >? s0) eqn:E.
    + apply Z.gtb_lt in E. right.
      destruct (IH v d) as [[F R] | (pre & d' & v' & post & -> & R & L & F1 & F2)].
      * exists [], d, v, cands. cbn [app].
        split; [reflexivity | split; [exact R | split; [exact E |
          split; [constructor | exact F]]]].
      * exists ((d, v) :: pre), d', v', post. cbn [app].
        split; [reflexivity | split; [exact R | split; [lia |
          split; [constructor; [cbn; lia | exact F1] | exact F2]]]].
    + assert (v <= s0) by (rewrite Z.gtb_ltb in E; apply Z.ltb_ge in E; lia).
      destruct (IH s0 d0) as [[F R] | (pre & d' & v' & post & -> & R & L & F1 & F2)].
      * left. split; [constructor; [cbn; lia | exact F] | exact R].
      * right. exists ((d, v) :: pre), d', v', post. cbn [app].
        split; [reflexivity | split; [exact R | split; [exact L |
          split; [constructor; [cbn; lia | exact F1] | exact F2]]]].
Qed.

(** ** Reversal and transposition of rank layouts *)

Lemma ranks_map_reverse (b : board) :
  ranks (map reverse b) = map (@rev Z) (ranks b).
Proof.
  unfold ranks, reverse. rewrite !map_map. apply map_ext.
  intros row. apply map_rev.
Qed.

Lemma wf_map_reverse (b : board) : wf_board b -> wf_board (map reverse b).
Proof.
  intros [Hb Hr]. split; [now rewrite length_map |].
  apply Forall_map. eapply Forall_impl; [| exact Hr].
  intros row E. unfold reverse. now rewrite length_rev.
Qed.

Lemma map_rev_rev (R : list (list Z)) : map (@rev Z) (map (@rev Z) R) = R.
Proof.
  rewrite map_map. rewrite <- (map_id R) at 2. apply map_ext.
  intros r. apply rev_involutive.
Qed.

Lemma rank_move_right (R : list (list Z)) :
  rank_move RIGHT R = map (@rev Z) (rank_move LEFT (map (@rev Z) R)).
Proof. cbn. now rewrite !map_map. Qed.

Lemma rank_score_right (R : list (list Z)) :
  rank_score RIGHT R = rank_score LEFT (map (@rev Z) R).
Proof.
  unfold rank_score. generalize 0.
  induction R as [| r R IH]; intros acc; [reflexivity |].
  cbn [map fold_left]. apply IH.
Qed.

Lemma unchanged_right (R : list (list Z)) :
  unchanged RIGHT R = unchanged LEFT (map (@rev Z) R).
Proof.
  apply eq_true_iff_eq. rewrite !unchanged_true, rank_move_right. split.
  - intros E. rewrite E at 1. now rewrite map_rev_rev.
  - intros E. rewrite <- E. now rewrite map_rev_rev.
Qed.

Lemma unchanged_transposed (d d' : Direction) (b bt b2 : board) :
  wf_board b -> wf_board b2 ->
  ranks bt = rank_transpose (ranks b) ->
  ranks b2 = rank_move d' (ranks bt) ->
  rank_move d (ranks b) = rank_transpose (rank_move d' (ranks bt)) ->
  unchanged d (ranks b) = unchanged d' (ranks bt).
Proof.
  intros W W2 Et E2 Em.
  apply eq_true_iff_eq. rewrite !unchanged_true, Em, <- E2. split.
  - intros E. rewrite Et, E. apply rank_transpose_involutive, W2.
  - intros E. rewrite <- E, Et. symmetry.
    apply rank_transpose_involutive, W.
Qed.

(** * The properties of the specification *)

(** C2. The combine routine is the walk of the specification: empty cells
    are dropped in order, then each step either merges two cells of rank 1
    into rank 2 (second key, score 2), or two cells whose ranks differ by
    one into rank [max + 1] (second key, score the sum of the two ranks),
    or emits the cell unchanged; a merged cell is not looked at again.  The
    three lines of the specification come out as it says. *)
Theorem combine_values_refines_walk :
  (forall line, combine_values line = combine_spec line)
  /\ (forall k1 k2 k3 k4,
        combine_values [(1, k1); (1, k2); (0, k3); (0, k4)] = ([(2, k2)], 2))
  /\ (forall k1 k2 k3 k4,
        combine_values [(3, k1); (4, k2); (0, k3); (0, k4)] = ([(5, k2)], 7))
  /\ (forall k1 k2 k3 k4,
        combine_values [(3, k1); (6, k2); (0, k3); (0, k4)]
        = ([(3, k1); (6, k2)], 0)).
Proof.
  split; [exact combine_values_walk |].
  repeat split; intros; reflexivity.
Qed.

(** C3. On a board of the data model, [move] returns [(None, 0)] exactly
    when the board its direction's routine builds has the rank sequence of
    the old board; otherwise it returns that board and its score.  The
    comparison is on ranks only: the rank sequences agree exactly when the
    rank layouts do, whatever the identity keys. *)
Theorem move_none_iff_ranks_unchanged (b : board) (d : Direction) (g : rng) :
  wf_board b ->
  exists nb s g',
    move_raw b d g = inr ((nb, s), g')
    /\ (move b d g = inr ((None, 0), g')
        <-> _just_values b = _just_values nb)
    /\ (_just_values b <> _just_values nb
        -> move b d g = inr ((Some nb, s), g'))
    /\ (_just_values b = _just_values nb <-> ranks b = ranks nb).
Proof.
  intros H.
  destruct (move_run b d g H) as (nb & g' & Er & W & R & Em).
  exists nb, (rank_score d (ranks b)), g'.
  pose proof (just_values_eq_ranks b nb H W) as J.
  pose proof (unchanged_true d (ranks b)) as U. rewrite <- R in U.
  split; [exact Er | split; [| split; [| exact J]]].
  - rewrite Em. destruct (unchanged d (ranks b)).
    + split; [intros _; apply J, U; reflexivity | reflexivity].
    + split; [discriminate |].
      intros E. apply J, U in E. discriminate.
  - intros N. rewrite Em. destruct (unchanged d (ranks b)); [| reflexivity].
    exfalso. apply N, J, U. reflexivity.
Qed.

Lemma move_none_iff_ranks_unchanged_witness :
  wf_board sample_board /\
  exists nb s g',
    move_raw sample_board DOWN zero_tape = inr ((nb, s), g')
    /\ (move sample_board DOWN zero_tape = inr ((None, 0), g')
        <-> _just_values sample_board = _just_values nb)
    /\ (_just_values sample_board <> _just_values nb
        -> move sample_board DOWN zero_tape = inr ((Some nb, s), g'))
    /\ (_just_values sample_board = _just_values nb
        <-> ranks sample_board = ranks nb).
Proof.
  split; [split; [reflexivity | repeat constructor] |].
  apply (move_none_iff_ranks_unchanged sample_board DOWN zero_tape).
  split; [reflexivity | repeat constructor].
Defined.

(** C5. On a board of the data model with an empty cell,
    [with_random_tile] makes three draws: the first picks, by its index in
    the list of empty cells (each empty cell is listed once), the cell to
    fill; the second, a number of the unit interval, gives rank 1 below 0.9
    and rank 2 otherwise; the third is the fresh identity key.  The cell
    picked was empty, every other cell is unchanged, and one more cell is
    occupied.  A board without empty cell is returned unchanged, with no
    draw. *)
Theorem with_random_tile_spawns_one (b : board) (g : rng) :
  wf_board b ->
  NoDup (empty_positions b)
  /\ (forall i j, In (i, j) (empty_positions b)
                  <-> exists k, cell_at b i j = Some (0, k))
  /\ (empty_positions b = [] -> with_random_tile b g = inr (b, g))
  /\ (empty_positions b <> [] ->
      exists i j value key b',
        with_random_tile b g = inr (b', fun n => g (S (S (S n))))
        /\ nth_error (empty_positions b)
             (Z.to_nat (g 0%nat mod Z.of_nat (length (empty_positions b))))
           = Some (i, j)
        /\ value = (if Qlt_le_dec (Qmake (g 1%nat mod 2 ^ 53) (2 ^ 53)) (9 # 10)
                    then 1 else 2)
        /\ key = g 2%nat mod 1000001
        /\ (exists k, cell_at b i j = Some (0, k))
        /\ cell_at b' i j = Some (value, key)
        /\ (forall i' j', (i', j') <> (i, j) ->
                          cell_at b' i' j' = cell_at b i' j')
        /\ occupied b' = S (occupied b)
        /\ wf_board b').
Proof.
  intros H. split; [apply empty_positions_NoDup |].
  split; [intros i j; now apply empty_positions_spec |].
  now apply with_random_tile_run.
Qed.

Lemma with_random_tile_spawns_one_witness :
  wf_board sample_board /\
  exists b',
    with_random_tile sample_board zero_tape = inr (b', zero_tape)
    /\ occupied b' = S (occupied sample_board)
    /\ cell_at b' 0 2 = Some (1, 0).
Proof.
  split; [split; [reflexivity | repeat constructor] |].
  destruct (with_random_tile_spawns_one sample_board zero_tape)
    as (_ & _ & _ & S); [split; [reflexivity | repeat constructor] |].
  destruct S as (i & j & value & key & b' & E & P & V & K & _ & C & _ & O & _);
    [discriminate |].
  exists b'. split; [exact E |]. split; [exact O |].
  injection P as <- <-. rewrite C, V, K. reflexivity.
Defined.

(** C6. On a board of the data model whose ranks are not negative, the
    score delta that [move] returns is not negative, in every direction. *)
Theorem move_score_nonneg (b : board) (d : Direction) (g : rng) :
  wf_board b -> ranks_nonneg b ->
  exists r g', move b d g = inr (r, g') /\ 0 <= snd r.
Proof.
  intros H N.
  destruct (move_run b d g H) as (nb & g' & _ & _ & _ & Em).
  rewrite Em. eexists _, g'. split; [reflexivity |].
  destruct (unchanged d (ranks b)); cbn [snd]; [lia |].
  now apply rank_score_nonneg.
Qed.

Lemma move_score_nonneg_witness :
  wf_board sample_board /\ ranks_nonneg sample_board /\
  exists r g', move sample_board LEFT zero_tape = inr (r, g') /\ 0 <= snd r.
Proof.
  split; [split; [reflexivity | repeat constructor] |].
  split; [repeat constructor; cbn; lia |].
  apply (move_score_nonneg sample_board LEFT zero_tape).
  - split; [reflexivity | repeat constructor].
  - repeat constructor; cbn; lia.
Defined.

(** C7. Direction symmetry, up to identity keys and whatever the draws of
    the two runs: moving right is moving the board with every row reversed
    to the left and reversing the rows of the result; moving up (down) is
    moving the transposed board left (right) and transposing the result
    back.  The two sides are skipped together and have the same score. *)
Theorem direction_symmetry (b : board) (g1 g2 : rng) :
  wf_board b ->
  (exists r1 r2 g1' g2',
      move b RIGHT g1 = inr (r1, g1')
      /\ move (map reverse b) LEFT g2 = inr (r2, g2')
      /\ outcome_ranks r1 = outcome_ranks (map_outcome (map reverse) r2))
  /\ (exists bt,
        is_transpose b bt
        /\ (exists r1 r2 g1' g2',
              move b UP g1 = inr (r1, g1')
              /\ move bt LEFT g2 = inr (r2, g2')
              /\ transposed_outcome r1 r2)
        /\ (exists r1 r2 g1' g2',
              move b DOWN g1 = inr (r1, g1')
              /\ move bt RIGHT g2 = inr (r2, g2')
              /\ transposed_outcome r1 r2)).
Proof.
  intros H. split.
  - destruct (move_run b RIGHT g1 H) as (b1 & g1' & _ & W1 & R1 & E1).
    destruct (move_run (map reverse b) LEFT g2 (wf_map_reverse b H))
      as (b2 & g2' & _ & W2 & R2 & E2).
    rewrite ranks_map_reverse in R2, E2.
    rewrite <- unchanged_right, <- rank_score_right in E2.
    rewrite E1, E2. eexists _, _, g1', g2'.
    split; [reflexivity | split; [reflexivity |]].
    destruct (unchanged RIGHT (ranks b)); [reflexivity |].
    unfold outcome_ranks, map_outcome. cbn [fst snd option_map].
    now rewrite ranks_map_reverse, R1, R2, rank_move_right.
  - destruct (transpose_run b H) as (bt & T & Wt & Rt).
    exists bt. split; [exact T |].
    assert (S : forall d d',
               rank_move d (ranks b)
               = rank_transpose (rank_move d' (rank_transpose (ranks b))) ->
               rank_score d (ranks b) = rank_score d' (rank_transpose (ranks b)) ->
               exists r1 r2 g1' g2',
                 move b d g1 = inr (r1, g1')
                 /\ move bt d' g2 = inr (r2, g2')
                 /\ transposed_outcome r1 r2).
    { intros d d' Em Es.
      destruct (move_run b d g1 H) as (b1 & g1' & _ & W1 & R1 & E1).
      destruct (move_run bt d' g2 Wt) as (b2 & g2' & _ & W2 & R2 & E2).
      rewrite <- Rt in Em, Es.
      rewrite <- (unchanged_transposed d d' b bt b2 H W2 Rt R2 Em), <- Es in E2.
      rewrite E1, E2. eexists _, _, g1', g2'.
      split; [reflexivity | split; [reflexivity |]].
      destruct (unchanged d (ranks b)); [now split |].
      split; [reflexivity |]. cbn [fst].
      destruct (transpose_run b2 W2) as (b2t & T2 & _ & R2t).
      exists b2t. split; [exact T2 |]. now rewrite R2t, R2, R1, Em. }
    split; apply S; reflexivity.
Qed.

Lemma direction_symmetry_witness :
  wf_board sample_board /\
  (exists r1 r2 g1' g2',
      move sample_board RIGHT zero_tape = inr (r1, g1')
      /\ move (map reverse sample_board) LEFT (fun n => Z.of_nat n)
         = inr (r2, g2')
      /\ outcome_ranks r1 = outcome_ranks (map_outcome (map reverse) r2)).
Proof.
  split; [split; [reflexivity | repeat constructor] |].
  apply (direction_symmetry sample_board zero_tape (fun n => Z.of_nat n)).
  split; [reflexivity | repeat constructor].
Defined.

(** C8. [pad_values] raises [ValueError] on more than [BOARD_SIZE] values;
    the combine routine never returns more cells than its line has, so that
    padding what it returns for a line of [BOARD_SIZE] cells succeeds and
    gives [BOARD_SIZE] cells; and [move] returns, without raising, on every
    board of the data model. *)
Theorem pad_values_error_unreachable :
  (forall v g, (BOARD_SIZE < length v)%nat -> pad_values v g = inl ValueError)
  /\ (forall line, (length (fst (combine_values line)) <= length line)%nat)
  /\ (forall line g, length line = BOARD_SIZE ->
        exists p g', pad_values (fst (combine_values line)) g = inr (p, g')
                     /\ length p = BOARD_SIZE)
  /\ (forall b d g, wf_board b -> exists r g', move b d g = inr (r, g')).
Proof.
  split; [exact pad_values_raises |].
  split; [exact combine_values_length |].
  split.
  - intros line g L.
    destruct (line_run line g) as (p & g' & E & _ & P & _); [lia |].
    now exists p, g'.
  - intros b d g H. destruct (move_total b d g H) as (r & g' & E & _).
    now exists r, g'.
Qed.

Lemma pad_values_error_unreachable_witness :
  pad_values [(1, 1); (1, 2); (1, 3); (1, 4); (1, 5)] zero_tape
  = inl ValueError
  /\ (exists p g',
        pad_values (fst (combine_values [(1, 1); (1, 2); (1, 3); (2, 4)]))
                   zero_tape = inr (p, g')
        /\ length p = BOARD_SIZE)
  /\ (exists r g', move sample_board UP zero_tape = inr (r, g')).
Proof.
  destruct pad_values_error_unreachable as (A & _ & C & D).
  split; [apply A; unfold BOARD_SIZE; cbn; lia |].
  split; [apply C; reflexivity |].
  apply D. split; [reflexivity | repeat constructor].
Defined.

(** What [best_move] returns on a board of the data model that
    [is_game_over] does not report: the best of the candidates, starting
    from [-1] and [UP]. *)
Lemma best_move_run (depth breadth : nat) (b : board) (g g1 : rng) :
  wf_board b -> (1 <= breadth)%nat ->
  is_game_over b g = inr (false, g1) ->
  exists cands g',
    candidates depth breadth b directions g1 = inr (cands, g')
    /\ map fst cands = filter (legal b) directions
    /\ best_move depth breadth b g
       = inr ((snd (fold_left keep_best cands (-1, UP)),
               fst (fold_left keep_best cands (-1, UP))), g').
Proof.
  intros W Hb Eo.
  destruct (search_loop_run depth breadth (estimate_returns depth breadth Hb)
              b directions W (-1, UP) g1)
    as (cands & g' & Ec & Ef & L).
  exists cands, g'. split; [exact Ec | split; [exact L |]].
  rewrite best_move_unfold. run_bind Eo. run_bind Ef.
  now destruct (fold_left keep_best cands (-1, UP)).
Qed.

Lemma legal_any_tape (b : board) (d : Direction) (g : rng) :
  wf_board b ->
  exists r g', move b d g = inr (r, g')
               /\ (legal b d = true <-> fst r <> None).
Proof.
  intros W. destruct (move_run b d g W) as (nb & g' & _ & _ & _ & E).
  rewrite E, (legal_spec b d W). eexists _, g'. split; [reflexivity |].
  destruct (unchanged d (ranks b)); cbn; split; congruence.
Qed.

(** C1, as the claim states it, fails: on this board, which is not
    reported as game over, at depth 1 the directions that are not skipped
    are Down and Right, each of total value -1, and [best_move] returns Up,
    which is skipped. *)
Lemma best_move_returns_skipped_direction :
  wf_board cornered_board
  /\ is_game_over cornered_board zero_tape = inr (false, zero_tape)
  /\ value_of (candidates 1 1 cornered_board directions zero_tape)
     = Some [(DOWN, -1); (RIGHT, -1)]
  /\ value_of (best_move 1 1 cornered_board zero_tape) = Some (UP, -1)
  /\ legal cornered_board UP = false
  /\ ~ In UP (map fst [(DOWN, -1); (RIGHT, -1)]).
Proof.
  split; [split; [reflexivity | repeat constructor] |].
  split; [reflexivity |].
  split; [vm_compute; reflexivity |].
  split; [vm_compute; reflexivity |].
  split; [vm_compute; reflexivity |].
  cbn. intuition discriminate.
Qed.

(** C1, amended. On a board of the data model that is not reported as
    game over, with [breadth >= 1], [best_move] considers the directions in
    the order Up, Down, Left, Right, skips those whose move returns [None],
    and gives each of the others its total value.  When some total value is
    greater than -1 it returns the first direction of greatest total value,
    with that value; otherwise it returns Up with -1. *)
Theorem best_move_selects_first_greatest (depth breadth : nat) (b : board)
    (g g1 : rng) :
  wf_board b -> (1 <= breadth)%nat ->
  is_game_over b g = inr (false, g1) ->
  exists cands g',
    candidates depth breadth b directions g1 = inr (cands, g')
    /\ map fst cands = filter (legal b) directions
    /\ ((Forall (fun c => snd c <= -1) cands
         /\ best_move depth breadth b g = inr ((UP, -1), g'))
        \/ (exists pre d v post,
              cands = pre ++ (d, v) :: post
              /\ -1 < v
              /\ Forall (fun c => snd c < v) pre
              /\ Forall (fun c => snd c <= v) post
              /\ best_move depth breadth b g = inr ((d, v), g'))).
Proof.
  intros W Hb Eo.
  destruct (best_move_run depth breadth b g g1 W Hb Eo)
    as (cands & g' & Ec & L & E).
  exists cands, g'. split; [exact Ec | split; [exact L |]].
  destruct (keep_best_fold cands (-1) UP)
    as [[F R] | (pre & d & v & post & Hc & R & Lt & F1 & F2)];
    rewrite R in E; cbn [fst snd] in E.
  - left. now split.
  - right. exists pre, d, v, post. now repeat split.
Qed.

Lemma best_move_selects_first_greatest_witness :
  wf_board sample_board /\ (1 <= 2)%nat
  /\ is_game_over sample_board zero_tape = inr (false, zero_tape)
  /\ exists cands g',
       candidates 1 2 sample_board directions zero_tape = inr (cands, g')
       /\ map fst cands = filter (legal sample_board) directions
       /\ ((Forall (fun c => snd c <= -1) cands
            /\ best_move 1 2 sample_board zero_tape = inr ((UP, -1), g'))
           \/ (exists pre d v post,
                 cands = pre ++ (d, v) :: post
                 /\ -1 < v
                 /\ Forall (fun c => snd c < v) pre
                 /\ Forall (fun c => snd c <= v) post
                 /\ best_move 1 2 sample_board zero_tape
                    = inr ((d, v), g'))).
Proof.
  split; [split; [reflexivity | repeat constructor] |].
  split; [lia |]. split; [reflexivity |].
  apply (best_move_selects_first_greatest 1 2 sample_board
           zero_tape zero_tape).
  - split; [reflexivity | repeat constructor].
  - lia.
  - reflexivity.
Defined.

(** C9. On a board of the data model that is not reported as game over,
    with [breadth >= 1], the score that [best_move] returns is at least -1,
    so it is not the game-over sentinel; and when no direction that is not
    skipped has a total value above -1, [best_move] returns Up with -1. *)
Theorem best_move_score_at_least_minus_one (depth breadth : nat) (b : board)
    (g g1 : rng) :
  wf_board b -> (1 <= breadth)%nat ->
  is_game_over b g = inr (false, g1) ->
  exists r g',
    best_move depth breadth b g = inr (r, g')
    /\ -1 <= snd r
    /\ snd r <> sentinel
    /\ (forall cands g'',
          candidates depth breadth b directions g1 = inr (cands, g'') ->
          Forall (fun c => snd c <= -1) cands ->
          r = (UP, -1)).
Proof.
  intros W Hb Eo.
  destruct (best_move_run depth breadth b g g1 W Hb Eo)
    as (cands & g' & Ec & _ & E).
  eexists _, g'. split; [exact E |]. cbn [snd].
  destruct (keep_best_fold cands (-1) UP)
    as [[F R] | (pre & d & v & post & Hc & R & Lt & F1 & F2)];
    rewrite R; cbn [fst snd].
  - split; [lia |]. split; [unfold sentinel; lia |]. reflexivity.
  - split; [lia |]. split; [unfold sentinel; lia |].
    intros cands' g'' Ec' F. rewrite Ec in Ec'. injection Ec' as <- <-.
    exfalso. subst cands. apply Forall_app in F. destruct F as [_ F].
    inversion F as [| ? ? Hv _]; subst. cbn in Hv. lia.
Qed.

Lemma best_move_score_at_least_minus_one_witness :
  wf_board cornered_board /\ (1 <= 1)%nat
  /\ is_game_over cornered_board zero_tape = inr (false, zero_tape)
  /\ legal cornered_board UP = false
  /\ exists r g',
       best_move 1 1 cornered_board zero_tape = inr (r, g')
       /\ -1 <= snd r
       /\ snd r <> sentinel
       /\ (forall cands g'',
             candidates 1 1 cornered_board directions zero_tape
             = inr (cands, g'') ->
             Forall (fun c => snd c <= -1) cands ->
             r = (UP, -1)).
Proof.
  split; [split; [reflexivity | repeat constructor] |].
  split; [lia |]. split; [reflexivity |]. split; [vm_compute; reflexivity |].
  apply (best_move_score_at_least_minus_one 1 1 cornered_board
           zero_tape zero_tape).
  - split; [reflexivity | repeat constructor].
  - lia.
  - reflexivity.
Defined.

(** C4, on the code. No board is ever reported as game over, because
    [is_game_over] tests the pair that [move] returns, not its board,
    against [None].  So on a board where all four moves return [None] the
    sentinel branch of [best_move] is not taken: the search returns Up with
    -1, at every depth and breadth. *)
Theorem game_over_sentinel_never_returned (depth breadth : nat) (g : rng) :
  (forall d, move dead_board d g = inr ((None, 0), g))
  /\ is_game_over dead_board g = inr (false, g)
  /\ best_move depth breadth dead_board g = inr ((UP, -1), g)
  /\ (forall b g0 g', is_game_over b g0 <> inr (true, g')).
Proof.
  split; [intros d; destruct d; reflexivity |].
  split; [reflexivity |].
  split; [rewrite best_move_unfold; reflexivity |].
  exact is_game_over_not_true.
Qed.

(** C10, on the code. On the board whose cells are all empty, whatever its
    identity keys, every move returns [None], and [is_game_over] still
    returns false. *)
Theorem blank_board_not_reported_game_over (key : nat -> nat -> Z)
    (g : rng) :
  (forall d, exists g', move (blank_board key) d g = inr ((None, 0), g'))
  /\ (exists g', is_game_over (blank_board key) g = inr (false, g')).
Proof.
  assert (W : wf_board (blank_board key))
    by (split; [reflexivity | repeat constructor]).
  split.
  - intros d. destruct (move_run (blank_board key) d g W)
      as (nb & g' & _ & _ & _ & E).
    exists g'. rewrite E.
    replace (unchanged d (ranks (blank_board key))) with true;
      [reflexivity |].
    destruct d; vm_compute; reflexivity.
  - now apply is_game_over_run.
Qed.

(** * Further properties of the code *)

(** ** The value table *)

Lemma fib_step (k : nat) : fib (S (S k)) = fib k + fib (S k).
Proof. reflexivity. Qed.

Lemma fib_loop (m : nat) :
  fold_left (fun '(a, b, result) (_ : nat) => (b, a + b, result ++ [a + b]))
            (seq 0 m) (1, 1, [1; 1])
  = (fib m, fib (S m), map fib (seq 0 (m + 2))).
Proof.
  induction m as [| m IH]; [reflexivity |].
  rewrite seq_S, fold_left_app, IH. cbn [fold_left].
  rewrite <- fib_step. f_equal.
  replace (S m + 2)%nat with (S (m + 2)) by lia.
  rewrite (seq_S (m + 2)), map_app. cbn [map Nat.add].
  now replace (m + 2)%nat with (S (S m)) by lia.
Qed.

Lemma generate_fibonacci_fib (n : Z) :
  generate_fibonacci n = map fib (seq 0 (Z.to_nat (Z.max n 2))).
Proof.
  unfold generate_fibonacci, range. rewrite fib_loop.
  f_equal. f_equal. lia.
Qed.



Lemma nth_generate_fibonacci (n : Z) (k : nat) :
  (k < length (generate_fibonacci n))%nat ->
  nth k (generate_fibonacci n) 0 = fib k.
Proof.
  rewrite generate_fibonacci_fib, length_map, length_seq. intros H.
  rewrite (nth_indep _ 0 (fib 0)) by (now rewrite length_map, length_seq).
  rewrite map_nth, seq_nth by exact H. reflexivity.
Qed.

(** X1. [generate_fibonacci n] has [n] entries when [n >= 2] and two
    entries otherwise: for [n <= 2], also zero or negative, it is [[1; 1]]. *)
Theorem generate_fibonacci_length (n : Z) :
  length (generate_fibonacci n) = Z.to_nat (Z.max n 2)
  /\ (n <= 2 -> generate_fibonacci n = [1; 1]).
Proof.
  rewrite generate_fibonacci_fib, length_map, length_seq.
  split; [reflexivity |].
  intros H. now replace (Z.max n 2) with 2 by lia.
Qed.

Lemma generate_fibonacci_length_witness :
  length (generate_fibonacci 30) = Z.to_nat (Z.max 30 2)
  /\ generate_fibonacci (-3) = [1; 1].
Proof.
  split; [apply (generate_fibonacci_length 30) |].
  apply (generate_fibonacci_length (-3)). lia.
Defined.

(** X2. The first two entries of [generate_fibonacci n] are 1 and every
    later entry is the sum of the two before it. *)
Theorem generate_fibonacci_recurrence (n : Z) (k : nat) :
  nth 0 (generate_fibonacci n) 0 = 1
  /\ nth 1 (generate_fibonacci n) 0 = 1
  /\ ((k + 2 < length (generate_fibonacci n))%nat ->
      nth (k + 2) (generate_fibonacci n) 0
      = nth k (generate_fibonacci n) 0 + nth (k + 1) (generate_fibonacci n) 0).
Proof.
  assert (L : (2 <= length (generate_fibonacci n))%nat)
    by (rewrite (proj1 (generate_fibonacci_length n)); lia).
  split; [now rewrite nth_generate_fibonacci by lia |].
  split; [now rewrite nth_generate_fibonacci by lia |].
  intros H. rewrite !nth_generate_fibonacci by lia.
  replace (k + 2)%nat with (S (S k)) by lia.
  replace (k + 1)%nat with (S k) by lia. apply fib_step.
Qed.

Lemma generate_fibonacci_recurrence_witness :
  (27 + 2 < length (generate_fibonacci 30))%nat
  /\ nth (27 + 2) (generate_fibonacci 30) 0
     = nth 27 (generate_fibonacci 30) 0
       + nth (27 + 1) (generate_fibonacci 30) 0.
Proof.
  split; [vm_compute; lia |].
  apply (generate_fibonacci_recurrence 30 27). vm_compute. lia.
Defined.



(** ** Totals of shown numbers *)

Lemma magnitude_fib (r : Z) :
  0 <= r <= 29 -> magnitude r = fib (Z.to_nat r).
Proof.
  intros H. unfold magnitude, fibonacci.
  apply nth_generate_fibonacci.
  rewrite (proj1 (generate_fibonacci_length 30)). lia.
Qed.

Lemma magnitude_sum (a : Z) :
  0 <= a <= 27 -> magnitude a + magnitude (a + 1) = magnitude (a + 2).
Proof.
  intros H. rewrite !magnitude_fib by lia.
  replace (Z.to_nat (a + 2)) with (S (S (Z.to_nat a))) by lia.
  replace (Z.to_nat (a + 1)) with (S (Z.to_nat a)) by lia.
  symmetry. apply fib_step.
Qed.

Lemma cell_magnitude_occupied (r : Z) :
  r <> 0 -> cell_magnitude r = magnitude r.
Proof.
  intros H. unfold cell_magnitude.
  now replace (r =? 0) with false by (symmetry; apply Z.eqb_neq; exact H).
Qed.

Lemma rank_magnitude_cons (r : Z) (l : list Z) :
  rank_magnitude (r :: l) = cell_magnitude r + rank_magnitude l.
Proof. reflexivity. Qed.

Lemma rank_magnitude_app (l1 l2 : list Z) :
  rank_magnitude (l1 ++ l2) = rank_magnitude l1 + rank_magnitude l2.
Proof.
  induction l1 as [| r l1 IH]; [reflexivity |].
  rewrite <- app_comm_cons, !rank_magnitude_cons, IH. lia.
Qed.

Lemma rank_magnitude_rev (l : list Z) :
  rank_magnitude (rev l) = rank_magnitude l.
Proof.
  induction l as [| r l IH]; [reflexivity |].
  cbn [rev]. rewrite rank_magnitude_app, IH, !rank_magnitude_cons.
  change (rank_magnitude []) with 0. lia.
Qed.

Lemma rank_magnitude_zeros (k : nat) : rank_magnitude (repeat 0 k) = 0.
Proof.
  induction k as [| k IH]; [reflexivity |].
  cbn [repeat]. rewrite rank_magnitude_cons, IH. reflexivity.
Qed.

Lemma rank_magnitude_filter (l : list Z) :
  rank_magnitude (filter (fun r => negb (r =? 0)) l) = rank_magnitude l.
Proof.
  induction l as [| r l IH]; [reflexivity |].
  cbn [filter]. rewrite rank_magnitude_cons.
  destruct (r =? 0) eqn:E; cbn [negb].
  - rewrite IH. unfold cell_magnitude. now rewrite E.
  - now rewrite rank_magnitude_cons, IH.
Qed.

Lemma rank_walk_magnitude (rs : list Z) :
  Forall (fun r => 1 <= r <= 28) rs ->
  rank_magnitude (fst (rank_walk rs)) = rank_magnitude rs.
Proof.
  induction rs as [| a | a b l IH1 IH2] using list_pair_ind; intros H.
  - reflexivity.
  - reflexivity.
  - rewrite rank_walk_step.
    inversion H as [| ? ? Ha Hb]; subst.
    inversion Hb as [| ? ? Hb' Hl]; subst.
    specialize (IH1 Hl). specialize (IH2 Hb).
    destruct (rank_walk l) as [r1 t1], (rank_walk (b :: l)) as [r2 t2].
    cbn [fst] in *.
    rewrite (rank_magnitude_cons a), (rank_magnitude_cons b).
    rewrite (cell_magnitude_occupied a), (cell_magnitude_occupied b) by lia.
    destruct ((a =? 1) && (b =? 1)) eqn:E1.
    + apply andb_true_iff in E1. destruct E1 as [Ea Eb].
      apply Z.eqb_eq in Ea, Eb. subst. cbn [fst].
      rewrite rank_magnitude_cons, IH1. vm_compute (cell_magnitude 2).
      vm_compute (magnitude 1). lia.
    + destruct (Z.abs (a - b) =? 1) eqn:E2; cbn [fst].
      * apply Z.eqb_eq in E2.
        rewrite rank_magnitude_cons, IH1.
        rewrite cell_magnitude_occupied by lia.
        assert (C : (b = a + 1 /\ Z.max a b + 1 = a + 2)
                    \/ (a = b + 1 /\ Z.max a b + 1 = b + 2)) by lia.
        destruct C as [[-> ->] | [-> ->]].
        -- rewrite <- (magnitude_sum a) by lia. lia.
        -- rewrite <- (magnitude_sum b) by lia. lia.
      * rewrite rank_magnitude_cons, IH2, rank_magnitude_cons.
        rewrite !cell_magnitude_occupied by lia. lia.
Qed.

Lemma rank_line_magnitude (rs : list Z) :
  Forall (fun r => 0 <= r <= 28) rs ->
  rank_magnitude (fst (rank_line rs)) = rank_magnitude rs.
Proof.
  intros H. unfold rank_line.
  assert (F : Forall (fun r => 1 <= r <= 28)
                     (filter (fun r => negb (r =? 0)) rs)).
  { apply Forall_forall. intros x Hx. apply filter_In in Hx.
    destruct Hx as [Hx Nz]. rewrite Forall_forall in H.
    specialize (H x Hx). apply negb_true_iff, Z.eqb_neq in Nz. lia. }
  pose proof (rank_walk_magnitude _ F) as W.
  destruct (rank_walk _) as [out s]. cbn [fst] in *.
  now rewrite rank_magnitude_app, rank_magnitude_zeros, W,
    rank_magnitude_filter, Z.add_0_r.
Qed.

(** X4. For a line whose ranks are between 0 and 28, the numbers that the
    table [fibonacci] gives for the cells that [combine_values] returns add
    up to the same total as those of the occupied cells of the line: a
    merged cell shows the sum of the two cells it replaces. *)
Theorem combine_values_keeps_total (line : group) :
  Forall (fun c : cell => 0 <= fst c <= 28) line ->
  line_magnitude (fst (combine_values line)) = line_magnitude line.
Proof.
  intros H. rewrite combine_values_walk. unfold combine_spec, line_magnitude.
  rewrite (proj1 (merge_walk_ranks _)), filter_ranks.
  rewrite rank_walk_magnitude, rank_magnitude_filter; [reflexivity |].
  apply Forall_forall. intros x Hx. apply filter_In in Hx.
  destruct Hx as [Hx Nz]. apply in_map_iff in Hx.
  destruct Hx as (c & <- & Hc). rewrite Forall_forall in H.
  specialize (H c Hc). apply negb_true_iff, Z.eqb_neq in Nz. lia.
Qed.

Lemma combine_values_keeps_total_witness :
  Forall (fun c : cell => 0 <= fst c <= 28)
         [(3, 1); (4, 2); (0, 3); (28, 4)]
  /\ line_magnitude (fst (combine_values [(3, 1); (4, 2); (0, 3); (28, 4)]))
     = line_magnitude [(3, 1); (4, 2); (0, 3); (28, 4)].
Proof.
  split; [repeat constructor; cbn; lia |].
  apply (combine_values_keeps_total [(3, 1); (4, 2); (0, 3); (28, 4)]).
  repeat constructor; cbn; lia.
Defined.

Lemma board_magnitude_ranks (b : board) :
  board_magnitude b = rank_magnitude (concat (ranks b)).
Proof.
  unfold board_magnitude, line_magnitude, ranks. now rewrite concat_map.
Qed.

Lemma grid_magnitude (x0 x1 x2 x3 : list Z) :
  rank_magnitude (concat [x0; x1; x2; x3])
  = rank_magnitude x0 + rank_magnitude x1 + rank_magnitude x2
    + rank_magnitude x3.
Proof.
  cbn [concat]. rewrite !rank_magnitude_app.
  change (rank_magnitude []) with 0. lia.
Qed.

Lemma ranks_within_ranks (m : Z) (b : board) :
  ranks_within m b <-> Forall (Forall (fun r => 0 <= r <= m)) (ranks b).
Proof.
  unfold ranks_within, ranks. rewrite Forall_map.
  split; intros H; (eapply Forall_impl; [| exact H]); intros row Hr;
    cbv beta in *; rewrite Forall_map in *; exact Hr.
Qed.

Lemma transpose_magnitude (b : board) :
  wf_board b ->
  rank_magnitude (concat (rank_transpose (ranks b)))
  = rank_magnitude (concat (ranks b)).
Proof.
  intros H.
  destruct (wf_board_cells b H)
    as (c00 & c01 & c02 & c03 & c10 & c11 & c12 & c13
        & c20 & c21 & c22 & c23 & c30 & c31 & c32 & c33 & ->).
  cbv [rank_transpose ranks range BOARD_SIZE map seq nth concat app
       rank_magnitude fold_right].
  lia.
Qed.

Lemma transpose_within (m : Z) (b : board) :
  wf_board b ->
  Forall (Forall (fun r => 0 <= r <= m)) (ranks b) ->
  Forall (Forall (fun r => 0 <= r <= m)) (rank_transpose (ranks b)).
Proof.
  intros H N.
  destruct (wf_board_cells b H)
    as (c00 & c01 & c02 & c03 & c10 & c11 & c12 & c13
        & c20 & c21 & c22 & c23 & c30 & c31 & c32 & c33 & ->).
  cbn [ranks map] in N.
  repeat match goal with
         | H : Forall _ (_ :: _) |- _ => inversion H; clear H; subst
         end.
  cbv [rank_transpose ranks range BOARD_SIZE map seq nth].
  repeat (apply Forall_cons || apply Forall_nil); assumption.
Qed.

Lemma rows_magnitude (b : board) (d : Direction) :
  d = LEFT \/ d = RIGHT ->
  wf_board b ->
  Forall (Forall (fun r => 0 <= r <= 28)) (ranks b) ->
  rank_magnitude (concat (rank_move d (ranks b)))
  = rank_magnitude (concat (ranks b)).
Proof.
  intros Hd H N.
  destruct (wf_board_cells b H)
    as (c00 & c01 & c02 & c03 & c10 & c11 & c12 & c13
        & c20 & c21 & c22 & c23 & c30 & c31 & c32 & c33 & ->).
  cbn [ranks map] in N.
  repeat match goal with
         | H : Forall _ (_ :: _) |- _ => inversion H; clear H; subst
         end.
  assert (L : forall a b c d : Z,
             0 <= a <= 28 -> 0 <= b <= 28 -> 0 <= c <= 28 -> 0 <= d <= 28 ->
             rank_magnitude (fst (rank_line [a; b; c; d]))
             = rank_magnitude [a; b; c; d]).
  { intros. apply rank_line_magnitude.
    repeat (apply Forall_cons || apply Forall_nil); assumption. }
  destruct Hd as [-> | ->];
    cbn [rank_move rank_rows ranks map rev app];
    rewrite !grid_magnitude, ?rank_magnitude_rev, !L by assumption;
    rewrite !rank_magnitude_cons; lia.
Qed.

Lemma rank_move_magnitude (b : board) (d : Direction) :
  wf_board b ->
  Forall (Forall (fun r => 0 <= r <= 28)) (ranks b) ->
  rank_magnitude (concat (rank_move d (ranks b)))
  = rank_magnitude (concat (ranks b)).
Proof.
  intros H N.
  assert (T : forall d',
             d' = LEFT \/ d' = RIGHT ->
             rank_move d (ranks b)
             = rank_transpose (rank_move d' (rank_transpose (ranks b))) ->
             rank_magnitude (concat (rank_move d (ranks b)))
             = rank_magnitude (concat (ranks b))).
  { intros d' Hd' Em.
    destruct (transpose_run b H) as (bt & _ & Wt & Rt).
    destruct (move_run bt d' zero_tape Wt) as (b2 & g' & _ & W2 & R2 & _).
    rewrite Em, <- Rt, <- R2, (transpose_magnitude b2 W2), R2.
    rewrite (rows_magnitude bt d' Hd' Wt);
      [rewrite Rt; now apply transpose_magnitude |].
    rewrite Rt. now apply transpose_within. }
  destruct d.
  - apply (T LEFT); [now left | reflexivity].
  - apply (T RIGHT); [now right | reflexivity].
  - apply rows_magnitude; auto.
  - apply rows_magnitude; auto.
Qed.

Lemma move_some_magnitude (b nb : board) (d : Direction) (g g' : rng)
    (delta : Z) :
  wf_board b -> ranks_within 28 b ->
  move b d g = inr ((Some nb, delta), g') ->
  board_magnitude nb = board_magnitude b.
Proof.
  intros H N E.
  destruct (move_run b d g H) as (b' & g1 & _ & _ & R & Em).
  rewrite Em in E. destruct (unchanged d (ranks b)); [discriminate |].
  injection E as <- _ _.
  rewrite !board_magnitude_ranks, R.
  apply rank_move_magnitude; [exact H | now apply ranks_within_ranks].
Qed.

(** X5. On a board of the data model whose ranks are between 0 and 28, a
    move that changes the board keeps the total of the numbers that the
    table [fibonacci] gives for its occupied cells. *)
Theorem move_keeps_total (b nb : board) (d : Direction) (g g' : rng)
    (delta : Z) :
  wf_board b -> ranks_within 28 b ->
  move b d g = inr ((Some nb, delta), g') ->
  board_magnitude nb = board_magnitude b.
Proof. apply move_some_magnitude. Qed.

Lemma move_keeps_total_witness :
  wf_board sample_board /\ ranks_within 28 sample_board
  /\ exists nb delta g',
       move sample_board UP zero_tape = inr ((Some nb, delta), g')
       /\ board_magnitude nb = board_magnitude sample_board.
Proof.
  split; [split; [reflexivity | repeat constructor] |].
  split; [repeat constructor; cbn; lia |].
  eexists _, _, _. split; [reflexivity |].
  eapply (move_keeps_total sample_board) with (d := UP) (g := zero_tape).
  - split; [reflexivity | repeat constructor].
  - repeat constructor; cbn; lia.
  - reflexivity.
Defined.

(** ** Keys, scores and merges of a line *)

Lemma merge_walk_keys (vs : list cell) :
  incl (map snd (fst (merge_walk vs))) (map snd vs)
  /\ (NoDup (map snd vs) -> NoDup (map snd (fst (merge_walk vs)))).
Proof.
  induction vs as [| a | a b l [I1 N1] [I2 N2]] using list_pair_ind.
  - split; [apply incl_refl | auto].
  - split; [apply incl_refl | auto].
  - rewrite merge_walk_step.
    destruct (merge_walk l) as [o1 s1], (merge_walk (b :: l)) as [o2 s2].
    cbn [fst map] in *.
    assert (M : forall x : Z,
               incl (map snd ((x, snd b) :: o1)) (snd a :: snd b :: map snd l)
               /\ (NoDup (snd a :: snd b :: map snd l) ->
                   NoDup (map snd ((x, snd b) :: o1)))).
    { intros x. cbn [map snd]. split.
      - apply incl_cons; [right; now left |].
        now apply incl_tl, incl_tl.
      - intros D. inversion D as [| ? ? _ D']; subst.
        inversion D' as [| ? ? Nb Dl]; subst.
        constructor; [| now apply N1].
        intros Hin. apply Nb. now apply I1. }
    destruct ((fst a =? 1) && (fst b =? 1)); [apply M |].
    destruct (Z.abs (fst a - fst b) =? 1); [apply M |].
    cbn [fst map]. split.
    + apply incl_cons; [now left | now apply incl_tl].
    + intros D. inversion D as [| ? ? Na D']; subst.
      constructor; [| now apply N2].
      intros Hin. apply Na. now apply I2.
Qed.

(** X6. [combine_values] neither invents nor repeats identity keys: the
    keys of the cells it returns are keys of occupied cells of the line, and
    they are pairwise different when those of the occupied cells are. *)
Theorem combine_values_keys (line : group) :
  incl (map snd (fst (combine_values line)))
       (map snd (filter (fun c => negb (fst c =? 0)) line))
  /\ (NoDup (map snd (filter (fun c => negb (fst c =? 0)) line)) ->
      NoDup (map snd (fst (combine_values line)))).
Proof.
  rewrite combine_values_walk. apply merge_walk_keys.
Qed.

Lemma combine_values_keys_witness :
  NoDup (map snd (filter (fun c : cell => negb (fst c =? 0))
                         [(1, 7); (1, 8); (0, 7); (2, 9)]))
  /\ NoDup (map snd (fst (combine_values [(1, 7); (1, 8); (0, 7); (2, 9)]))).
Proof.
  assert (D : NoDup (map snd (filter (fun c : cell => negb (fst c =? 0))
                                     [(1, 7); (1, 8); (0, 7); (2, 9)]))).
  { cbn. repeat constructor; cbn; intuition discriminate. }
  split; [exact D |].
  exact (proj2 (combine_values_keys [(1, 7); (1, 8); (0, 7); (2, 9)]) D).
Defined.

Lemma merge_walk_score (vs : list cell) :
  Forall (fun c : cell => 1 <= fst c) vs ->
  (snd (merge_walk vs) = 0 /\ fst (merge_walk vs) = vs)
  \/ (0 < snd (merge_walk vs)
      /\ (length (fst (merge_walk vs)) < length vs)%nat).
Proof.
  induction vs as [| a | a b l IH1 IH2] using list_pair_ind; intros H.
  - now left.
  - now left.
  - rewrite merge_walk_step.
    inversion H as [| ? ? Ha Hb]; subst.
    inversion Hb as [| ? ? Hb' Hl]; subst.
    specialize (IH1 Hl). specialize (IH2 Hb).
    destruct (merge_walk l) as [o1 s1], (merge_walk (b :: l)) as [o2 s2].
    cbn [fst snd length] in *.
    assert (M : 0 <= s1 /\ (length o1 <= length l)%nat).
    { destruct IH1 as [[-> ->] | [? ?]]; split; lia. }
    destruct ((fst a =? 1) && (fst b =? 1));
      [right; cbn [fst snd length]; lia |].
    destruct (Z.abs (fst a - fst b) =? 1);
      [right; cbn [fst snd length]; lia |].
    cbn [fst snd length].
    destruct IH2 as [[-> ->] | [? ?]]; [now left | right; lia].
Qed.

(** X7. For a line without negative rank, the score of [combine_values] is
    zero exactly when no merge took place, that is when it returns the
    occupied cells of the line as they are; and when the score is positive
    it returns fewer cells than the line has occupied ones. *)
Theorem combine_values_score_zero_iff_no_merge (line : group) :
  Forall (fun c : cell => 0 <= fst c) line ->
  (snd (combine_values line) = 0
   <-> fst (combine_values line)
       = filter (fun c => negb (fst c =? 0)) line)
  /\ (0 < snd (combine_values line) ->
      (length (fst (combine_values line))
       < length (filter (fun c => negb (fst c =? 0)%Z) line))%nat).
Proof.
  intros H. rewrite combine_values_walk. unfold combine_spec.
  assert (F : Forall (fun c : cell => 1 <= fst c)
                     (filter (fun c => negb (fst c =? 0)) line)).
  { apply Forall_forall. intros c Hc. apply filter_In in Hc.
    destruct Hc as [Hc Nz]. rewrite Forall_forall in H.
    specialize (H c Hc). apply negb_true_iff, Z.eqb_neq in Nz. lia. }
  destruct (merge_walk_score _ F) as [[S0 E] | [Sp L]].
  - split; [split; auto | lia].
  - split; [| auto]. split; [lia |].
    intros E. rewrite E in L. lia.
Qed.

Lemma combine_values_score_zero_iff_no_merge_witness :
  Forall (fun c : cell => 0 <= fst c) [(3, 1); (6, 2); (0, 3); (1, 4)]
  /\ snd (combine_values [(3, 1); (6, 2); (0, 3); (1, 4)]) = 0
  /\ fst (combine_values [(3, 1); (6, 2); (0, 3); (1, 4)])
     = [(3, 1); (6, 2); (1, 4)].
Proof.
  assert (H : Forall (fun c : cell => 0 <= fst c)
                     [(3, 1); (6, 2); (0, 3); (1, 4)])
    by (repeat constructor; cbn; lia).
  split; [exact H |]. split; [reflexivity |].
  exact (proj1 (proj1 (combine_values_score_zero_iff_no_merge _ H))
           eq_refl).
Defined.

(** ** A move that changes the board leaves room for a tile *)

Lemma rank_walk_full (rs : list Z) :
  (length (fst (rank_walk rs)) <= length rs)%nat
  /\ (length (fst (rank_walk rs)) = length rs -> fst (rank_walk rs) = rs).
Proof.
  induction rs as [| a | a b l [L1 F1] [L2 F2]] using list_pair_ind.
  - now split.
  - now split.
  - rewrite rank_walk_step.
    destruct (rank_walk l) as [o1 s1], (rank_walk (b :: l)) as [o2 s2].
    cbn [fst length] in *.
    destruct ((a =? 1) && (b =? 1)); [cbn [fst length]; split; lia |].
    destruct (Z.abs (a - b) =? 1); [cbn [fst length]; split; lia |].
    cbn [fst length]. split; [lia |].
    intros E. f_equal. apply F2. lia.
Qed.

Lemma filter_full {A : Type} (p : A -> bool) (l : list A) :
  length (filter p l) = length l -> filter p l = l.
Proof.
  induction l as [| x l IH]; [reflexivity |].
  cbn [filter]. pose proof (filter_length_le p l).
  destruct (p x); cbn [length]; intros E; [f_equal; apply IH |]; lia.
Qed.

Lemma rank_line_full_or_zero (rs : list Z) :
  length rs = BOARD_SIZE ->
  fst (rank_line rs) = rs \/ In 0 (fst (rank_line rs)).
Proof.
  intros L. unfold rank_line.
  pose proof (rank_walk_full (filter (fun r => negb (r =? 0)) rs)) as [Lw Fw].
  pose proof (filter_length_le (fun r => negb (r =? 0)) rs) as Lf.
  pose proof (filter_full (fun r => negb (r =? 0)) rs) as Ff.
  destruct (rank_walk _) as [out s]. cbn [fst] in *.
  destruct (Nat.eq_dec (length out) BOARD_SIZE) as [E | N].
  - left. rewrite E, Nat.sub_diag. cbn [repeat]. rewrite app_nil_r.
    rewrite Fw by lia. apply Ff. lia.
  - right. apply in_or_app. right.
    destruct (BOARD_SIZE - length out)%nat eqn:K; [lia |]. now left.
Qed.

Lemma rows_changed_zero (b : board) (d : Direction) :
  d = LEFT \/ d = RIGHT ->
  wf_board b -> unchanged d (ranks b) = false ->
  In 0 (concat (rank_move d (ranks b))).
Proof.
  intros Hd H U.
  destruct (wf_board_cells b H)
    as (c00 & c01 & c02 & c03 & c10 & c11 & c12 & c13
        & c20 & c21 & c22 & c23 & c30 & c31 & c32 & c33 & ->).
  assert (N : ranks [[c00; c01; c02; c03]; [c10; c11; c12; c13];
                     [c20; c21; c22; c23]; [c30; c31; c32; c33]]
              <> rank_move d (ranks [[c00; c01; c02; c03]; [c10; c11; c12; c13];
                                     [c20; c21; c22; c23]; [c30; c31; c32; c33]])).
  { intros E. apply unchanged_true in E. congruence. }
  assert (L : forall a b c d : Z,
             fst (rank_line [a; b; c; d]) = [a; b; c; d]
             \/ In 0 (fst (rank_line [a; b; c; d])))
    by (intros; now apply rank_line_full_or_zero).
  destruct Hd as [-> | ->]; cbn [rank_move rank_rows ranks map rev app] in *.
  - destruct (L (fst c00) (fst c01) (fst c02) (fst c03)) as [E0 | Z0],
             (L (fst c10) (fst c11) (fst c12) (fst c13)) as [E1 | Z1],
             (L (fst c20) (fst c21) (fst c22) (fst c23)) as [E2 | Z2],
             (L (fst c30) (fst c31) (fst c32) (fst c33)) as [E3 | Z3];
      try (exfalso; apply N; congruence);
      cbn [concat]; rewrite !in_app_iff; tauto.
  - destruct (L (fst c03) (fst c02) (fst c01) (fst c00)) as [E0 | Z0],
             (L (fst c13) (fst c12) (fst c11) (fst c10)) as [E1 | Z1],
             (L (fst c23) (fst c22) (fst c21) (fst c20)) as [E2 | Z2],
             (L (fst c33) (fst c32) (fst c31) (fst c30)) as [E3 | Z3];
      try (exfalso; apply N; rewrite E0, E1, E2, E3; reflexivity);
      cbn [concat]; rewrite !in_app_iff, <- !in_rev; tauto.
Qed.

Lemma transpose_zero (b : board) :
  wf_board b ->
  In 0 (concat (ranks b)) -> In 0 (concat (rank_transpose (ranks b))).
Proof.
  intros H.
  destruct (wf_board_cells b H)
    as (c00 & c01 & c02 & c03 & c10 & c11 & c12 & c13
        & c20 & c21 & c22 & c23 & c30 & c31 & c32 & c33 & ->).
  cbn. tauto.
Qed.

Lemma rank_move_changed_zero (b : board) (d : Direction) :
  wf_board b -> unchanged d (ranks b) = false ->
  In 0 (concat (rank_move d (ranks b))).
Proof.
  intros H U.
  assert (T : forall d',
             d' = LEFT \/ d' = RIGHT ->
             rank_move d (ranks b)
             = rank_transpose (rank_move d' (rank_transpose (ranks b))) ->
             In 0 (concat (rank_move d (ranks b)))).
  { intros d' Hd' Em.
    destruct (transpose_run b H) as (bt & _ & Wt & Rt).
    destruct (move_run bt d' zero_tape Wt) as (b2 & g' & _ & W2 & R2 & _).
    rewrite <- Rt in Em.
    rewrite (unchanged_transposed d d' b bt b2 H W2 Rt R2 Em) in U.
    rewrite Em, <- R2. apply transpose_zero; [exact W2 |].
    rewrite R2. now apply rows_changed_zero. }
  destruct d.
  - apply (T LEFT); [now left | reflexivity].
  - apply (T RIGHT); [now right | reflexivity].
  - apply rows_changed_zero; auto.
  - apply rows_changed_zero; auto.
Qed.

Lemma zero_rank_cell (b : board) :
  wf_board b -> In 0 (concat (ranks b)) ->
  exists i j k, cell_at b i j = Some (0, k).
Proof.
  intros H.
  destruct (wf_board_cells b H)
    as ([r00 k00] & [r01 k01] & [r02 k02] & [r03 k03]
        & [r10 k10] & [r11 k11] & [r12 k12] & [r13 k13]
        & [r20 k20] & [r21 k21] & [r22 k22] & [r23 k23]
        & [r30 k30] & [r31 k31] & [r32 k32] & [r33 k33] & ->).
  cbn [ranks map fst concat app In].
  intros Z0.
  repeat match goal with
         | H : _ \/ _ |- _ => destruct H as [H | H]
         end;
    try contradiction; subst;
    first [ now exists 0%nat, 0%nat, k00 | now exists 0%nat, 1%nat, k01
          | now exists 0%nat, 2%nat, k02 | now exists 0%nat, 3%nat, k03
          | now exists 1%nat, 0%nat, k10 | now exists 1%nat, 1%nat, k11
          | now exists 1%nat, 2%nat, k12 | now exists 1%nat, 3%nat, k13
          | now exists 2%nat, 0%nat, k20 | now exists 2%nat, 1%nat, k21
          | now exists 2%nat, 2%nat, k22 | now exists 2%nat, 3%nat, k23
          | now exists 3%nat, 0%nat, k30 | now exists 3%nat, 1%nat, k31
          | now exists 3%nat, 2%nat, k32 | now exists 3%nat, 3%nat, k33 ].
Qed.

Lemma move_some_empty_cell (b nb : board) (d : Direction) (g g' : rng)
    (delta : Z) :
  wf_board b ->
  move b d g = inr ((Some nb, delta), g') ->
  wf_board nb
  /\ empty_positions nb <> []
  /\ exists i j k, cell_at nb i j = Some (0, k).
Proof.
  intros H E.
  destruct (move_run b d g H) as (b' & g1 & _ & W & R & Em).
  rewrite Em in E. destruct (unchanged d (ranks b)) eqn:U; [discriminate |].
  injection E as <- _ _.
  destruct (zero_rank_cell b' W) as (i & j & k & C).
  { rewrite R. now apply rank_move_changed_zero. }
  split; [exact W |]. split; [| now exists i, j, k].
  intros Em0.
  assert (In (i, j) (empty_positions b'))
    by (apply empty_positions_spec; [exact W | now exists k]).
  rewrite Em0 in *. contradiction.
Qed.

(** X8. On a board of the data model, the board that [move] returns when
    it does not return [None] has an empty cell: a move that changes the
    board always leaves room for the tile that [on_key] spawns after it. *)
Theorem move_leaves_empty_cell (b nb : board) (d : Direction) (g g' : rng)
    (delta : Z) :
  wf_board b ->
  move b d g = inr ((Some nb, delta), g') ->
  wf_board nb
  /\ empty_positions nb <> []
  /\ exists i j k, cell_at nb i j = Some (0, k).
Proof. apply move_some_empty_cell. Qed.

Lemma move_leaves_empty_cell_witness :
  wf_board cornered_board
  /\ exists nb delta g',
       move cornered_board RIGHT zero_tape = inr ((Some nb, delta), g')
       /\ wf_board nb
       /\ empty_positions nb <> []
       /\ exists i j k, cell_at nb i j = Some (0, k).
Proof.
  split; [split; [reflexivity | repeat constructor] |].
  eexists _, _, _. split; [reflexivity |].
  eapply (move_leaves_empty_cell cornered_board)
    with (d := RIGHT) (g := zero_tape).
  - split; [reflexivity | repeat constructor].
  - reflexivity.
Defined.

(** ** Transposing and inserting *)

Lemma generate_length {A B : Type} (xs : list A) (f : A -> M B) :
  forall g ys g', generate xs f g = inr (ys, g') -> length ys = length xs.
Proof.
  induction xs as [| x xs IH]; intros g ys g' E.
  - injection E as <- _. reflexivity.
  - cbn [generate] in E. unfold bind at 1 in E.
    destruct (f x g) as [e | [y g1]]; [discriminate |].
    unfold bind at 1 in E.
    destruct (generate xs f g1) as [e | [ys' g2]] eqn:E'; [discriminate |].
    injection E as <- _. cbn [length]. f_equal. exact (IH _ _ _ E').
Qed.

Lemma generate_all {A B : Type} (P : B -> Prop) (xs : list A)
    (f : A -> M B) :
  (forall x g y g', f x g = inr (y, g') -> P y) ->
  forall g ys g', generate xs f g = inr (ys, g') -> Forall P ys.
Proof.
  intros Hf. induction xs as [| x xs IH]; intros g ys g' E.
  - injection E as <- _. constructor.
  - cbn [generate] in E. unfold bind at 1 in E.
    destruct (f x g) as [e | [y g1]] eqn:Ef; [discriminate |].
    unfold bind at 1 in E.
    destruct (generate xs f g1) as [e | [ys' g2]] eqn:E'; [discriminate |].
    injection E as <- _. constructor; [exact (Hf _ _ _ _ Ef) |].
    exact (IH _ _ _ E').
Qed.

(** X9. [transpose] is its own inverse on a board of the data model;
    whenever it returns, what it returns has [BOARD_SIZE] rows of
    [BOARD_SIZE] cells, also for a larger board; and on a board with fewer
    than [BOARD_SIZE] rows it raises [IndexError]. *)
Theorem transpose_round_trip (b : board) (g : rng) :
  (wf_board b -> exists bt, is_transpose b bt /\ is_transpose bt b)
  /\ (forall bt g', transpose b g = inr (bt, g') -> wf_board bt)
  /\ ((length b < BOARD_SIZE)%nat -> transpose b g = inl IndexError).
Proof.
  split; [| split].
  - intros H.
    destruct (wf_board_cells b H)
      as (c00 & c01 & c02 & c03 & c10 & c11 & c12 & c13
          & c20 & c21 & c22 & c23 & c30 & c31 & c32 & c33 & ->).
    eexists. split; intros g0; reflexivity.
  - intros bt g' E. unfold transpose in E. split.
    + rewrite (generate_length _ _ _ _ _ E). reflexivity.
    + refine (generate_all (fun row : group => length row = BOARD_SIZE)
                (range BOARD_SIZE) (fun i => ith_column b i) _ g bt g' E).
      intros i g0 col g1 Ec. unfold ith_column in Ec.
      rewrite (generate_length _ _ _ _ _ Ec). reflexivity.
  - unfold BOARD_SIZE. intros H.
    destruct b as [| [| c0 r0] [| [| c1 r1] [| [| c2 r2] [| r3 b]]]];
      cbn [length] in H; try lia; reflexivity.
Qed.

Lemma transpose_round_trip_witness :
  wf_board sample_board
  /\ (exists bt, is_transpose sample_board bt /\ is_transpose bt sample_board)
  /\ transpose [[(1, 1)]; [(2, 2)]] zero_tape = inl IndexError.
Proof.
  split; [split; [reflexivity | repeat constructor] |].
  split.
  - apply (proj1 (transpose_round_trip sample_board zero_tape)).
    split; [reflexivity | repeat constructor].
  - apply (proj2 (proj2 (transpose_round_trip [[(1, 1)]; [(2, 2)]]
                           zero_tape))).
    unfold BOARD_SIZE. cbn. lia.
Defined.

(** X10. On a board of the data model, [insert_value] at a position of
    the board puts the value there, whatever the cell held, with a key
    drawn between 0 and 1000000, and changes no other cell; at a row or
    column index outside the board it raises nothing and returns the board
    as it was. *)
Theorem insert_value_lookup (b : board) (i j : nat) (v : Z) (g : rng) :
  wf_board b ->
  ((i < BOARD_SIZE)%nat -> (j < BOARD_SIZE)%nat ->
   exists b' key,
     insert_value b i j v g = inr (b', fun n => g (S n))
     /\ 0 <= key <= 1000000
     /\ cell_at b' i j = Some (v, key)
     /\ (forall i' j', (i', j') <> (i, j) ->
                       cell_at b' i' j' = cell_at b i' j'))
  /\ ((BOARD_SIZE <= i)%nat \/ (BOARD_SIZE <= j)%nat ->
      exists g', insert_value b i j v g = inr (b, g')).
Proof.
  intros H. split.
  - intros Hi Hj.
    destruct (insert_value_run b i j v g H Hi Hj) as (b' & E & _ & C & O & _).
    exists b', (0 + g 0%nat mod (1000000 - 0 + 1)).
    split; [exact E |]. split; [| split; [exact C | exact O]].
    pose proof (Z.mod_pos_bound (g 0%nat) 1000001). cbn. lia.
  - unfold BOARD_SIZE. intros Ho.
    destruct (wf_board_cells b H)
      as (c00 & c01 & c02 & c03 & c10 & c11 & c12 & c13
          & c20 & c21 & c22 & c23 & c30 & c31 & c32 & c33 & ->).
    destruct i as [| [| [| [| i]]]]; destruct j as [| [| [| [| j]]]];
      try lia; eexists; reflexivity.
Qed.

Lemma insert_value_lookup_witness :
  wf_board dead_board
  /\ (exists b' key,
        insert_value dead_board 1 2 1 zero_tape
        = inr (b', fun n => zero_tape (S n))
        /\ 0 <= key <= 1000000
        /\ cell_at b' 1 2 = Some (1, key)
        /\ (forall i' j', (i', j') <> (1%nat, 2%nat) ->
                          cell_at b' i' j' = cell_at dead_board i' j'))
  /\ (exists g', insert_value dead_board 4 0 1 zero_tape
                 = inr (dead_board, g')).
Proof.
  assert (W : wf_board dead_board)
    by (split; [reflexivity | repeat constructor]).
  split; [exact W |]. split.
  - apply (proj1 (insert_value_lookup dead_board 1 2 1 zero_tape W));
      unfold BOARD_SIZE; lia.
  - apply (proj2 (insert_value_lookup dead_board 4 0 1 zero_tape W)).
    left. unfold BOARD_SIZE. lia.
Defined.

(** ** The game state *)

Lemma occupied_zero (b : board) :
  forallb (fun c : cell => fst c =? 0) (concat b) = true <-> occupied b = 0%nat.
Proof.
  unfold occupied. induction (concat b) as [| c l IH]; [now split |].
  cbn [forallb filter]. destruct (fst c =? 0); cbn [negb andb length].
  - exact IH.
  - split; intros; discriminate.
Qed.

Lemma occupied_zero_blank (b : board) :
  wf_board b -> occupied b = 0%nat ->
  Forall (Forall (fun c : cell => fst c = 0)) b.
Proof.
  intros H O. apply occupied_zero in O.
  destruct (wf_board_cells b H)
    as (c00 & c01 & c02 & c03 & c10 & c11 & c12 & c13
        & c20 & c21 & c22 & c23 & c30 & c31 & c32 & c33 & ->).
  cbn [concat app forallb] in O.
  repeat match goal with
         | H : _ && _ = true |- _ => apply andb_true_iff in H; destruct H
         end.
  repeat (apply Forall_cons || apply Forall_nil); now apply Z.eqb_eq.
Qed.

Lemma blank_state (b : board) :
  wf_board b -> occupied b = 0%nat ->
  ranks_nonneg b /\ empty_positions b <> [].
Proof.
  intros H O. pose proof (occupied_zero_blank b H O) as Z0. split.
  - unfold ranks_nonneg. eapply Forall_impl; [| exact Z0].
    intros row Hr. eapply Forall_impl; [| exact Hr].
    intros c Hc. cbv beta in Hc. lia.
  - destruct (wf_board_cells b H)
      as ([r00 k00] & c01 & c02 & c03 & c10 & c11 & c12 & c13
          & c20 & c21 & c22 & c23 & c30 & c31 & c32 & c33 & ->).
    inversion Z0 as [| ? ? Hrow _]; subst.
    inversion Hrow as [| ? ? Hc _]; subst. cbn [fst] in Hc. subst.
    intros E.
    pose proof (proj2 (empty_positions_spec _ 0%nat 0%nat H)
                  (ex_intro _ k00 eq_refl)) as Hin.
    rewrite E in Hin. exact Hin.
Qed.

Lemma spawn_on_room (b : board) (g : rng) :
  wf_board b -> ranks_nonneg b -> empty_positions b <> [] ->
  exists b',
    with_random_tile b g = inr (b', fun n => g (S (S (S n))))
    /\ wf_board b' /\ ranks_nonneg b'
    /\ occupied b' = S (occupied b).
Proof.
  intros H N R.
  destruct (proj2 (with_random_tile_run b g H) R)
    as (i & j & v & k & b' & E & _ & _ & _ & _ & _ & _ & O & W).
  exists b'. split; [exact E |]. split; [exact W |]. split; [| exact O].
  exact (with_random_tile_preserves_ranks_nonneg b b' g _ H N E).
Qed.

Lemma generate_cons_run {A B : Type} (x : A) (xs : list A) (f : A -> M B)
    (g g1 g2 : rng) (y : B) (ys : list B) :
  f x g = inr (y, g1) -> generate xs f g1 = inr (ys, g2) ->
  generate (x :: xs) f g = inr (y :: ys, g2).
Proof.
  intros E1 E2. cbn [generate].
  rewrite (bind_run _ _ _ _ _ E1). now rewrite (bind_run _ _ _ _ _ E2).
Qed.

Lemma default_board_run (g : rng) :
  exists fresh g',
    default_board g = inr (fresh, g')
    /\ wf_board fresh /\ occupied fresh = 0%nat.
Proof.
  destruct (fresh_cells_run (range BOARD_SIZE) g) as (r0 & g0 & E0 & R0).
  destruct (fresh_cells_run (range BOARD_SIZE) g0) as (r1 & g1 & E1 & R1).
  destruct (fresh_cells_run (range BOARD_SIZE) g1) as (r2 & g2 & E2 & R2).
  destruct (fresh_cells_run (range BOARD_SIZE) g2) as (r3 & g3 & E3 & R3).
  exists [r0; r1; r2; r3], g3.
  assert (L : forall r : group,
             map fst r = repeat 0 (length (range BOARD_SIZE)) ->
             exists k0 k1 k2 k3, r = [(0, k0); (0, k1); (0, k2); (0, k3)]).
  { intros r Hr. cbn in Hr.
    destruct r as [| [a0 k0] [| [a1 k1] [| [a2 k2] [| [a3 k3] [| c r]]]]];
      try discriminate.
    cbn in Hr. injection Hr as -> -> -> ->. now exists k0, k1, k2, k3. }
  split; [| destruct (L r0 R0) as (? & ? & ? & ? & ->),
                     (L r1 R1) as (? & ? & ? & ? & ->),
                     (L r2 R2) as (? & ? & ? & ? & ->),
                     (L r3 R3) as (? & ? & ? & ? & ->);
            split; [apply wf_board_explicit | reflexivity]].
  unfold default_board. unfold range at 1. unfold BOARD_SIZE at 1.
  cbn [seq].
  eapply generate_cons_run; [exact E0 |].
  eapply generate_cons_run; [exact E1 |].
  eapply generate_cons_run; [exact E2 |].
  eapply generate_cons_run; [exact E3 |].
  reflexivity.
Qed.

(** X11. The dictionary of [on_key] sends the value of every direction
    back to that direction, and [on_key] raises [KeyError] for every key
    that is not the value of a direction. *)
Theorem on_key_key_table (s : State) (key : string) (g : rng) :
  (forall d, dict_get key_directions (Direction_value d) = Some d)
  /\ ((forall d, key <> Direction_value d) -> on_key s key g = inl KeyError).
Proof.
  split; [intros d; destruct d; reflexivity |].
  intros N. unfold on_key, key_directions. cbn [dict_get].
  destruct (String.eqb "ArrowUp" key) eqn:E0;
    [apply String.eqb_eq in E0; exfalso; exact (N UP (eq_sym E0)) |].
  destruct (String.eqb "ArrowDown" key) eqn:E1;
    [apply String.eqb_eq in E1; exfalso; exact (N DOWN (eq_sym E1)) |].
  destruct (String.eqb "ArrowLeft" key) eqn:E2;
    [apply String.eqb_eq in E2; exfalso; exact (N LEFT (eq_sym E2)) |].
  destruct (String.eqb "ArrowRight" key) eqn:E3;
    [apply String.eqb_eq in E3; exfalso; exact (N RIGHT (eq_sym E3)) |].
  reflexivity.
Qed.

Lemma on_key_key_table_witness :
  (forall d, "Enter"%string <> Direction_value d)
  /\ on_key (mk_State sample_board 0) "Enter" zero_tape = inl KeyError.
Proof.
  assert (N : forall d, "Enter"%string <> Direction_value d)
    by (intros d; destruct d; discriminate).
  split; [exact N |].
  exact (proj2 (on_key_key_table (mk_State sample_board 0) "Enter" zero_tape)
           N).
Defined.

(** What [on_key] does with the key of a direction. *)
Lemma on_key_run (s : State) (key : string) (d : Direction) (g : rng) :
  state_ok s -> dict_get key_directions key = Some d ->
  exists r g1,
    move (_board s) d g = inr (r, g1)
    /\ match fst r with
       | None => on_key s key g = inr (s, g1)
       | Some nb =>
           exists t,
             on_key s key g
             = inr (mk_State t (score s + snd r), fun n => g1 (S (S (S n))))
             /\ with_random_tile nb g1 = inr (t, fun n => g1 (S (S (S n))))
             /\ wf_board nb /\ ranks_nonneg nb
             /\ 0 <= snd r
             /\ occupied t = S (occupied nb)
             /\ state_ok (mk_State t (score s + snd r))
       end.
Proof.
  intros (W & N & S0) K.
  destruct (move_total (_board s) d g W) as ([[nb |] delta] & g1 & Em & Hr);
    cbn [fst snd] in Hr; exists (Some nb, delta), g1 || exists (None, delta), g1;
    (split; [exact Em |]); cbn [fst snd].
  - destruct Hr as [Wnb _].
    pose proof (move_preserves_ranks_nonneg _ _ _ _ _ _ W N Em) as Nnb.
    destruct (move_some_empty_cell _ _ _ _ _ _ W Em) as (_ & R & _).
    destruct (spawn_on_room nb g1 Wnb Nnb R) as (t & Et & Wt & Nt & Ot).
    assert (D : 0 <= delta).
    { destruct (move_run (_board s) d g W) as (b' & g2 & _ & _ & _ & Em').
      rewrite Em' in Em. destruct (unchanged d (ranks (_board s)));
        [discriminate |].
      injection Em as _ <- _. now apply rank_score_nonneg. }
    exists t.
    split; [| split; [exact Et | split; [exact Wnb | split; [exact Nnb |
      split; [exact D | split; [exact Ot |]]]]]].
    2:{ split; [exact Wt | split; [exact Nt | cbn [score]; lia]]. }
    unfold on_key. rewrite K. unfold engine.
    rewrite (bind_run _ _ _ _ _ Em). cbv beta iota.
    now rewrite (bind_run _ _ _ _ _ Et).
  - unfold on_key. rewrite K. unfold engine.
    now rewrite (bind_run _ _ _ _ _ Em).
Qed.

Lemma insert_value_magnitude (b b' : board) (i j : nat) (v k : Z)
    (g g' : rng) :
  wf_board b -> cell_at b i j = Some (0, k) ->
  insert_value b i j v g = inr (b', g') ->
  board_magnitude b' = board_magnitude b + cell_magnitude v.
Proof.
  intros H C E.
  destruct (wf_board_cells b H)
    as (c00 & c01 & c02 & c03 & c10 & c11 & c12 & c13
        & c20 & c21 & c22 & c23 & c30 & c31 & c32 & c33 & ->).
  destruct i as [| [| [| [| [| i]]]]]; destruct j as [| [| [| [| [| j]]]]];
    cbn in C; try discriminate; injection C as ->;
    cbv [insert_value insert_value_row generate range BOARD_SIZE seq bind
         ret index nth_error Nat.eqb get_random_key randint draw] in E;
    injection E as <- _;
    cbv [board_magnitude line_magnitude concat app map rank_magnitude
         fold_right];
    cbn [fst]; change (cell_magnitude 0) with 0; lia.
Qed.

Lemma with_random_tile_magnitude (b b' : board) (g g' : rng) :
  wf_board b -> empty_positions b <> [] ->
  with_random_tile b g = inr (b', g') ->
  exists v, (v = 1 \/ v = 2) /\ board_magnitude b' = board_magnitude b + v.
Proof.
  intros H NE E.
  set (idx := Z.to_nat (g 0%nat mod Z.of_nat (length (empty_positions b)))).
  assert (Hidx : (idx < length (empty_positions b))%nat).
  { assert (0 < Z.of_nat (length (empty_positions b)))
      by (destruct (empty_positions b); [congruence | cbn [length]; lia]).
    pose proof (Z.mod_pos_bound (g 0%nat)
                  (Z.of_nat (length (empty_positions b))) ltac:(assumption)).
    subst idx. lia. }
  destruct (nth_error (empty_positions b) idx) as [[i j] |] eqn:En;
    [| apply nth_error_None in En; lia].
  pose proof (nth_error_In _ _ En) as Hin.
  apply (empty_positions_spec b i j H) in Hin. destruct Hin as [k Hk].
  set (v := if Qlt_le_dec (Qmake (g 1%nat mod 2 ^ 53) (2 ^ 53)) (9 # 10)
            then 1 else 2).
  assert (Ei : with_random_tile b g
               = insert_value b i j v (fun n => g (S (S n)))).
  { unfold with_random_tile. run_bind (empty_tiles_run b g H).
    destruct (empty_positions b) as [| p l] eqn:Ep; [congruence |].
    run_bind (choice_run (p :: l) g (i, j) En).
    run_bind (eq_refl : random (fun n => g (S n))
                        = inr (Qmake (g 1%nat mod 2 ^ 53) (2 ^ 53),
                               fun n => g (S (S n)))).
    reflexivity. }
  rewrite Ei in E.
  exists v. split; [subst v; destruct (Qlt_le_dec _ _); auto |].
  rewrite (insert_value_magnitude _ _ _ _ _ _ _ _ H Hk E).
  f_equal. subst v. destruct (Qlt_le_dec _ _); reflexivity.
Qed.

(** X12. From a state whose board is of the data model, with no negative
    rank, and whose score is not negative, [on_key] either raises
    [KeyError] or returns such a state again, with a score that is not
    smaller: it never raises from the engine and never lowers the score. *)
Theorem on_key_keeps_state (s : State) (key : string) (g : rng) :
  state_ok s ->
  on_key s key g = inl KeyError
  \/ exists s' g',
       on_key s key g = inr (s', g') /\ state_ok s' /\ score s <= score s'.
Proof.
  intros H.
  destruct (dict_get key_directions key) as [d |] eqn:K.
  - right. destruct (on_key_run s key d g H K) as ([[nb |] delta] & g1 & _ & R);
      cbn [fst snd] in R.
    + destruct R as (t & E & _ & _ & _ & D & _ & Ok).
      eexists _, _. split; [exact E |]. split; [exact Ok |].
      cbn [score]. lia.
    + exists s, g1. split; [exact R |]. split; [exact H | lia].
  - left. unfold on_key. now rewrite K.
Qed.

Lemma on_key_keeps_state_witness :
  state_ok (mk_State sample_board 7)
  /\ (on_key (mk_State sample_board 7) "ArrowLeft" zero_tape = inl KeyError
      \/ exists s' g',
           on_key (mk_State sample_board 7) "ArrowLeft" zero_tape
           = inr (s', g')
           /\ state_ok s' /\ score (mk_State sample_board 7) <= score s').
Proof.
  assert (Ok : state_ok (mk_State sample_board 7)).
  { split; [split; [reflexivity | repeat constructor] |].
    split; [repeat constructor; cbn; lia | cbn; lia]. }
  split; [exact Ok |].
  exact (on_key_keeps_state (mk_State sample_board 7) "ArrowLeft" zero_tape
           Ok).
Defined.

(** X13. With the key of a direction, [on_key] leaves the state as it is
    when the move returns [None]; otherwise the new board is the moved
    board with one tile spawned on it, so one more cell is occupied than
    after the move, and the score grows by the score delta of the move. *)
Theorem on_key_step (s : State) (d : Direction) (g : rng) :
  state_ok s ->
  exists r g1,
    move (_board s) d g = inr (r, g1)
    /\ match fst r with
       | None => on_key s (Direction_value d) g = inr (s, g1)
       | Some nb =>
           exists t,
             with_random_tile nb g1 = inr (t, fun n => g1 (S (S (S n))))
             /\ on_key s (Direction_value d) g
                = inr (mk_State t (score s + snd r),
                       fun n => g1 (S (S (S n))))
             /\ 0 <= snd r
             /\ occupied t = S (occupied nb)
       end.
Proof.
  intros H.
  assert (K : dict_get key_directions (Direction_value d) = Some d)
    by (destruct d; reflexivity).
  destruct (on_key_run s _ d g H K) as (r & g1 & Em & R).
  exists r, g1. split; [exact Em |].
  destruct (fst r) as [nb |]; [| exact R].
  destruct R as (t & E & Et & _ & _ & D & O & _).
  exists t. auto.
Qed.

Lemma on_key_step_witness :
  state_ok (mk_State sample_board 7)
  /\ exists t g',
       on_key (mk_State sample_board 7) (Direction_value LEFT) zero_tape
       = inr (mk_State t 16, g')
       /\ occupied t = 6%nat.
Proof.
  assert (Ok : state_ok (mk_State sample_board 7)).
  { split; [split; [reflexivity | repeat constructor] |].
    split; [repeat constructor; cbn; lia | cbn; lia]. }
  split; [exact Ok |].
  destruct (on_key_step (mk_State sample_board 7) LEFT zero_tape Ok)
    as (r & g1 & Em & R).
  injection Em as <- <-. cbn [fst snd] in R.
  destruct R as (t & _ & E & _ & O).
  exists t. eexists. split; [exact E | rewrite O; reflexivity].
Defined.

(** X14. When the ranks of the board are between 0 and 28, a key press
    that changes the board raises the total of the numbers the table
    [fibonacci] gives for the occupied cells by the number of the spawned
    tile, 1 or 2: the move itself keeps the total. *)
Theorem on_key_total (s s' : State) (d : Direction) (g g' : rng) :
  state_ok s -> ranks_within 28 (_board s) ->
  legal (_board s) d = true ->
  on_key s (Direction_value d) g = inr (s', g') ->
  board_magnitude (_board s') = board_magnitude (_board s) + 1
  \/ board_magnitude (_board s') = board_magnitude (_board s) + 2.
Proof.
  intros H N L E.
  assert (K : dict_get key_directions (Direction_value d) = Some d)
    by (destruct d; reflexivity).
  destruct (on_key_run s _ d g H K) as ([[nb |] delta] & g1 & Em & R);
    cbn [fst snd] in R.
  - destruct R as (t & E' & Et & Wnb & _ & _ & _ & _).
    rewrite E' in E. injection E as <- _. cbn [_board].
    destruct H as (W & _ & _).
    destruct (move_some_empty_cell _ _ _ _ _ _ W Em) as (_ & NE & _).
    destruct (with_random_tile_magnitude nb t g1 _ Wnb NE Et)
      as (v & [-> | ->] & M);
      rewrite M, (move_some_magnitude _ _ _ _ _ _ W N Em); auto.
  - exfalso. destruct H as (W & _ & _).
    rewrite (legal_spec _ _ W) in L.
    destruct (move_run (_board s) d g W) as (b' & g2 & _ & _ & _ & Em').
    rewrite Em' in Em.
    destruct (unchanged d (ranks (_board s))); discriminate.
Qed.

Lemma on_key_total_witness :
  state_ok (mk_State sample_board 7)
  /\ ranks_within 28 sample_board
  /\ legal sample_board LEFT = true
  /\ exists s' g',
       on_key (mk_State sample_board 7) (Direction_value LEFT) zero_tape
       = inr (s', g')
       /\ (board_magnitude (_board s') = board_magnitude sample_board + 1
           \/ board_magnitude (_board s')
              = board_magnitude sample_board + 2).
Proof.
  assert (Ok : state_ok (mk_State sample_board 7)).
  { split; [split; [reflexivity | repeat constructor] |].
    split; [repeat constructor; cbn; lia | cbn; lia]. }
  assert (N : ranks_within 28 sample_board)
    by (repeat constructor; cbn; lia).
  split; [exact Ok |]. split; [exact N |].
  split; [vm_compute; reflexivity |].
  eexists _, _. split; [reflexivity |].
  eapply (on_key_total (mk_State sample_board 7)) with (d := LEFT)
                                                      (g := zero_tape).
  - exact Ok.
  - exact N.
  - vm_compute. reflexivity.
  - reflexivity.
Defined.

(** X15. [on_reset] starts a game: from the board that the class default
    makes (4 rows of 4 empty cells), it gives a board with exactly one
    occupied cell and the score 0, whatever the state was. *)
Theorem on_reset_starts_game (s : State) (g0 g : rng) :
  exists fresh g0',
    default_board g0 = inr (fresh, g0')
    /\ wf_board fresh /\ occupied fresh = 0%nat
    /\ exists s',
         on_reset fresh s g = inr (s', fun n => g (S (S (S n))))
         /\ score s' = 0
         /\ occupied (_board s') = 1%nat
         /\ state_ok s'.
Proof.
  destruct (default_board_run g0) as (fresh & g0' & E & W & O).
  exists fresh, g0'. split; [exact E |]. split; [exact W |].
  split; [exact O |].
  destruct (blank_state fresh W O) as [N R].
  destruct (spawn_on_room fresh g W N R) as (t & Et & Wt & Nt & Ot).
  exists (mk_State t 0). split; [| split; [reflexivity | split]].
  - unfold on_reset. now rewrite (bind_run _ _ _ _ _ Et).
  - cbn [_board]. now rewrite Ot, O.
  - split; [exact Wt | split; [exact Nt | cbn; lia]].
Qed.

(** X16. [on_load] touches the state only when no cell of the board is
    occupied: then it spawns one tile and sets the score to 0; on a board
    with an occupied cell it returns the state as it is and draws
    nothing. *)
Theorem on_load_spawns_once (s : State) (g : rng) :
  wf_board (_board s) ->
  (occupied (_board s) = 0%nat ->
   exists s',
     on_load s g = inr (s', fun n => g (S (S (S n))))
     /\ score s' = 0 /\ occupied (_board s') = 1%nat)
  /\ (occupied (_board s) <> 0%nat -> on_load s g = inr (s, g)).
Proof.
  intros W. split.
  - intros O. destruct (blank_state _ W O) as [N R].
    destruct (spawn_on_room _ g W N R) as (t & Et & _ & _ & Ot).
    exists (mk_State t 0). split; [| split; [reflexivity |]].
    + unfold on_load. rewrite (proj2 (occupied_zero _) O).
      now rewrite (bind_run _ _ _ _ _ Et).
    + cbn [_board]. now rewrite Ot, O.
  - intros O. unfold on_load.
    destruct (forallb _ _) eqn:F; [| reflexivity].
    apply occupied_zero in F. contradiction.
Qed.

Lemma on_load_spawns_once_witness :
  wf_board sample_board
  /\ occupied sample_board <> 0%nat
  /\ on_load (mk_State sample_board 7) zero_tape
     = inr (mk_State sample_board 7, zero_tape)
  /\ wf_board (blank_board (fun _ _ => 5))
  /\ occupied (blank_board (fun _ _ => 5)) = 0%nat
  /\ exists s',
       on_load (mk_State (blank_board (fun _ _ => 5)) 7) zero_tape
       = inr (s', zero_tape)
       /\ score s' = 0 /\ occupied (_board s') = 1%nat.
Proof.
  assert (W : wf_board sample_board)
    by (split; [reflexivity | repeat constructor]).
  assert (O : occupied sample_board <> 0%nat) by (vm_compute; lia).
  assert (Wb : wf_board (blank_board (fun _ _ => 5)))
    by (split; [reflexivity | repeat constructor]).
  split; [exact W |]. split; [exact O |].
  split;
    [exact (proj2 (on_load_spawns_once (mk_State sample_board 7) zero_tape W)
              O) |].
  split; [exact Wb |]. split; [reflexivity |].
  exact (proj1 (on_load_spawns_once
                  (mk_State (blank_board (fun _ _ => 5)) 7) zero_tape Wb)
           eq_refl).
Defined.

(** ** More on the move search *)

Lemma bind_raise {A B : Type} (m : M A) (f : A -> M B) (g : rng) (e : error) :
  m g = inl e -> bind m f g = inl e.
Proof. intros H. unfold bind. now rewrite H. Qed.

Lemma candidates_depth_zero (breadth : nat) (b : board) :
  wf_board b ->
  forall ds g,
    exists g',
      candidates 0 breadth b ds g
      = inr (map (fun d => (d, rank_score d (ranks b))) (filter (legal b) ds),
             g').
Proof.
  intros W. induction ds as [| d ds IH]; intros g.
  - now exists g.
  - destruct (move_run b d g W) as (b' & g1 & _ & _ & _ & Em).
    destruct (IH g1) as (g2 & Ec). exists g2.
    cbn [candidates filter]. rewrite (legal_spec b d W).
    unfold total_value.
    destruct (unchanged d (ranks b)); cbn [negb map].
    + rewrite (bind_run _ _ g None g1);
        [now rewrite (bind_run _ _ _ _ _ Ec) |].
      now rewrite (bind_run _ _ _ _ _ Em).
    + rewrite (bind_run _ _ g (Some (rank_score d (ranks b))) g1);
        [now rewrite (bind_run _ _ _ _ _ Ec) |].
      now rewrite (bind_run _ _ _ _ _ Em).
Qed.

Lemma all_directions (d : Direction) : In d directions.
Proof. destruct d; cbn; tauto. Qed.

(** X17. At depth 0 [best_move] is greedy and does not use [breadth]: on a
    board of the data model with no negative rank that is not reported as
    game over and on which some direction is legal, it returns a legal
    direction with the score delta of its move, and no direction's move has
    a greater score delta. *)
Theorem best_move_depth_zero_greedy (breadth : nat) (b : board)
    (d0 : Direction) (g g1 : rng) :
  wf_board b -> ranks_nonneg b ->
  is_game_over b g = inr (false, g1) ->
  legal b d0 = true ->
  exists d v g',
    best_move 0 breadth b g = inr ((d, v), g')
    /\ legal b d = true
    /\ 0 <= v
    /\ (forall g0, exists nb g0', move b d g0 = inr ((Some nb, v), g0'))
    /\ (forall d' g0, exists r g0', move b d' g0 = inr (r, g0')
                                    /\ snd r <= v).
Proof.
  intros W N Eo L0.
  destruct (search_loop_run 0 breadth
              (fun nb sc g0 _ =>
                 ex_intro _ sc (ex_intro _ g0 eq_refl))
              b directions W (-1, UP) g1)
    as (cands & g' & Ec & Ef & _).
  destruct (candidates_depth_zero breadth b W directions g1) as (g2 & Ec').
  assert (Ecs : cands = map (fun d => (d, rank_score d (ranks b)))
                            (filter (legal b) directions)) by congruence.
  clear Ec Ec'.
  assert (S : forall d, legal b d = true ->
                In (d, rank_score d (ranks b)) cands).
  { intros d Ld. rewrite Ecs. apply in_map_iff. exists d. split; [reflexivity |].
    apply filter_In. split; [apply all_directions | exact Ld]. }
  assert (C : forall d v, In (d, v) cands ->
                legal b d = true /\ v = rank_score d (ranks b)).
  { intros d v Hin. rewrite Ecs in Hin. apply in_map_iff in Hin.
    destruct Hin as (d' & E & Hd'). injection E as <- <-.
    apply filter_In in Hd'. now split. }
  assert (M : forall d g0,
             exists b' g0',
               move b d g0
               = inr (if legal b d then (Some b', rank_score d (ranks b))
                      else (None, 0), g0')).
  { intros d g0. destruct (move_run b d g0 W) as (b' & g0' & _ & _ & _ & Em).
    exists b', g0'. rewrite Em, (legal_spec b d W).
    now destruct (unchanged d (ranks b)). }
  clear Ecs. destruct (keep_best_fold cands (-1) UP)
    as [[F R] | (pre & d & v & post & Hc & R & Lt & F1 & F2)].
  - exfalso. rewrite Forall_forall in F. specialize (F _ (S d0 L0)).
    cbn [snd] in F. pose proof (rank_score_nonneg b d0 W N). lia.
  - assert (Hin : In (d, v) cands)
      by (rewrite Hc; apply in_or_app; right; now left).
    destruct (C d v Hin) as [Ld Ev].
    assert (Le : forall c, In c cands -> snd c <= v).
    { intros c Hc'. rewrite Hc in Hc'. apply in_app_or in Hc'.
      rewrite Forall_forall in F1, F2.
      destruct Hc' as [Hp | [<- | Hp]];
        [specialize (F1 c Hp); lia | cbn; lia | exact (F2 c Hp)]. }
    exists d, v, g'. split; [| split; [exact Ld | split; [lia | split]]].
    + rewrite best_move_unfold.
      rewrite (bind_run _ _ _ _ _ Eo). cbv beta iota.
      rewrite (bind_run _ _ _ _ _ Ef). now rewrite R.
    + intros g0. destruct (M d g0) as (b' & g0' & Em).
      rewrite Ld, <- Ev in Em. now exists b', g0'.
    + intros d' g0. destruct (M d' g0) as (b' & g0' & Em).
      eexists _, g0'. split; [exact Em |].
      destruct (legal b d') eqn:Ld'; cbn [snd]; [| lia].
      exact (Le _ (S d' Ld')).
Qed.

Lemma best_move_depth_zero_greedy_witness :
  wf_board sample_board /\ ranks_nonneg sample_board
  /\ is_game_over sample_board zero_tape = inr (false, zero_tape)
  /\ legal sample_board UP = true
  /\ exists d v g',
       best_move 0 0 sample_board zero_tape = inr ((d, v), g')
       /\ legal sample_board d = true
       /\ 0 <= v
       /\ (forall g0, exists nb g0',
              move sample_board d g0 = inr ((Some nb, v), g0'))
       /\ (forall d' g0, exists r g0',
              move sample_board d' g0 = inr (r, g0') /\ snd r <= v).
Proof.
  split; [split; [reflexivity | repeat constructor] |].
  split; [repeat constructor; cbn; lia |].
  split; [reflexivity |]. split; [vm_compute; reflexivity |].
  apply (best_move_depth_zero_greedy 0 sample_board UP zero_tape zero_tape).
  - split; [reflexivity | repeat constructor].
  - repeat constructor; cbn; lia.
  - reflexivity.
  - vm_compute. reflexivity.
Defined.

Lemma search_loop_zero_breadth (depth : nat) (b : board) (d0 : Direction) :
  wf_board b -> legal b d0 = true ->
  forall ds st g,
    In d0 ds ->
    for_each ds (search_body (S depth) 0 b) st g = inl ZeroDivisionError.
Proof.
  intros W L0. induction ds as [| d ds IH]; intros [bs bd] g Hin;
    [contradiction |].
  cbn [for_each].
  destruct (move_run b d g W) as (b' & g1 & _ & _ & _ & Em).
  pose proof (legal_spec b d W) as Ls.
  destruct (unchanged d (ranks b)) eqn:U; cbn [negb] in Ls.
  - rewrite (bind_run _ _ g (bs, bd) g1).
    + apply IH. destruct Hin as [-> | Hin]; [congruence | exact Hin].
    + unfold search_body. now rewrite (bind_run _ _ _ _ _ Em).
  - apply bind_raise. unfold search_body.
    rewrite (bind_run _ _ _ _ _ Em). cbv beta iota.
    apply bind_raise. reflexivity.
Qed.

(** X18. With [breadth = 0] and a depth above 0, [best_move] raises
    [ZeroDivisionError] on every board of the data model that is not
    reported as game over and on which some direction is legal: the average
    of no sample divides by zero. *)
Theorem best_move_zero_breadth_raises (depth : nat) (b : board)
    (d0 : Direction) (g g1 : rng) :
  wf_board b ->
  is_game_over b g = inr (false, g1) ->
  legal b d0 = true ->
  best_move (S depth) 0 b g = inl ZeroDivisionError.
Proof.
  intros W Eo L0. rewrite best_move_unfold.
  rewrite (bind_run _ _ _ _ _ Eo). cbv beta iota.
  apply bind_raise.
  apply (search_loop_zero_breadth depth b d0 W L0).
  apply all_directions.
Qed.

Lemma best_move_zero_breadth_raises_witness :
  wf_board sample_board
  /\ is_game_over sample_board zero_tape = inr (false, zero_tape)
  /\ legal sample_board LEFT = true
  /\ best_move 3 0 sample_board zero_tape = inl ZeroDivisionError.
Proof.
  split; [split; [reflexivity | repeat constructor] |].
  split; [reflexivity |]. split; [vm_compute; reflexivity |].
  apply (best_move_zero_breadth_raises 2 sample_board LEFT
           zero_tape zero_tape).
  - split; [reflexivity | repeat constructor].
  - reflexivity.
  - vm_compute. reflexivity.
Defined.

(** X19. The body of [computer_play], a move chosen by [best_move] at
    depth 3 and breadth 4 and played through [on_key], never raises from a
    state whose board is of the data model with no negative rank and whose
    score is not negative: it returns such a state again, with a score that
    is not smaller. *)
Theorem computer_play_keeps_state (s : State) (g : rng) :
  state_ok s ->
  exists s' g',
    computer_play s g = inr (s', g') /\ state_ok s' /\ score s <= score s'.
Proof.
  intros H. pose proof H as (W & _ & _).
  destruct (best_move_total 3 4 ltac:(lia) (_board s) g W) as (r & g1 & Eb).
  assert (K : dict_get key_directions (Direction_value (fst r))
              = Some (fst r))
    by (destruct (fst r); reflexivity).
  unfold computer_play. rewrite Eb.
  destruct (on_key_run s _ _ g1 H K) as ([[nb |] delta] & g2 & _ & R);
    cbn [fst snd] in R.
  - destruct R as (t & E & _ & _ & _ & D & _ & Ok).
    eexists _, _. split; [exact E |]. split; [exact Ok | cbn [score]; lia].
  - exists s, g2. split; [exact R |]. split; [exact H | lia].
Qed.

Lemma computer_play_keeps_state_witness :
  state_ok (mk_State cornered_board 3)
  /\ exists s' g',
       computer_play (mk_State cornered_board 3) zero_tape = inr (s', g')
       /\ state_ok s' /\ score (mk_State cornered_board 3) <= score s'.
Proof.
  assert (Ok : state_ok (mk_State cornered_board 3)).
  { split; [split; [reflexivity | repeat constructor] |].
    split; [repeat constructor; cbn; lia | cbn; lia]. }
  split; [exact Ok |].
  exact (computer_play_keeps_state (mk_State cornered_board 3) zero_tape Ok).
Defined.
